(** * Player progression ledger (main.py): model and properties

    The SQLAlchemy models of main.py are embedded as records, one per mapped
    class, and the tables as lists of rows in insertion order.  The three
    methods of [Player] and [export_player_levels_to_csv] are written in a
    small state-and-exception monad over the session's store and the UTC
    clock. *)

From Stdlib Require Import ZArith NArith String List Lia Bool.
From stdpp Require Import base tactics option list numbers strings sorting.

Local Open Scope Z_scope.

(** ** Identifiers and timestamps *)

(** [UUID(as_uuid=True)]: an opaque identifier, only ever compared. *)
Definition UUID : Type := N.

Module Datetime.

(** [datetime.date]: ordered as the triple (year, month, day). *)
Record date : Type := mkDate { d_year : Z; d_month : Z; d_day : Z }.

(** A naive [datetime.datetime], as [datetime.utcnow()] returns it. *)
Record t : Type := mk {
  year : Z; month : Z; day : Z;
  hour : Z; minute : Z; second : Z; microsecond : Z }.

(** [dt.date()]. *)
Definition date_of (dt : t) : date :=
  {| d_year := year dt; d_month := month dt; d_day := day dt |}.

(** [a < b] on dates. *)
Definition date_ltb (a b : date) : bool :=
  (d_year a <? d_year b)
  || ((d_year a =? d_year b)
      && ((d_month a <? d_month b)
          || ((d_month a =? d_month b) && (d_day a <? d_day b)))).

#[global] Instance date_eq_dec : EqDecision date.
Proof. solve_decision. Defined.

#[global] Instance eq_dec : EqDecision t.
Proof. solve_decision. Defined.

End Datetime.

Abbreviation datetime := Datetime.t.

(** ** The mapped classes *)

(** [BoostType(PyEnum)] with the description attached to each member. *)
Inductive BoostType : Type := DOUBLE_POINTS | SPEED | SHIELD.

Definition BoostType_value (b : BoostType) : string :=
  match b with
  | DOUBLE_POINTS => "double_points"
  | SPEED => "speed"
  | SHIELD => "shield"
  end.

Module Player.
(** Table [players].  [points] is [nullable=False]: a loaded player always
    carries an integer. *)
Record t : Type := mk {
  id : UUID;
  first_login : option datetime;
  last_login : option datetime;
  points : Z }.
End Player.

Module Boost.
(** Table [boosts]. *)
Record t : Type := mk { id : UUID; type : BoostType; description : string }.
End Boost.

Module PlayerBoost.
(** Table [player_boosts], primary key (player_id, boost_id). *)
Record t : Type := mk {
  player_id : UUID;
  boost_id : UUID;
  amount : Z;
  created_at : datetime }.
Definition key (r : t) : UUID * UUID := (player_id r, boost_id r).
(** The row after [r.amount += n]. *)
Definition add_amount (r : t) (n : Z) : t :=
  {| player_id := player_id r;
     boost_id := boost_id r;
     amount := amount r + n;
     created_at := created_at r |}.
End PlayerBoost.

Module Level.
(** Table [levels]. *)
Record t : Type := mk { id : UUID; title : string; order : Z }.
End Level.

Module Prize.
(** Table [prizes]. *)
Record t : Type := mk { id : UUID; title : string }.
End Prize.

Module PlayerLevel.
(** Table [player_levels], primary key (player_id, level_id). *)
Record t : Type := mk {
  player_id : UUID;
  level_id : UUID;
  completed : option datetime;
  score : Z }.
Definition key (r : t) : UUID * UUID := (player_id r, level_id r).
End PlayerLevel.

Module LevelPrize.
(** Table [level_prizes], primary key (level_id, prize_id). *)
Record t : Type := mk { level_id : UUID; prize_id : UUID }.
Definition key (r : t) : UUID * UUID := (level_id r, prize_id r).
End LevelPrize.

Module PlayerPrize.
(** Table [player_prizes], primary key (player_id, prize_id). *)
Record t : Type := mk {
  player_id : UUID;
  prize_id : UUID;
  received_at : datetime }.
Definition key (r : t) : UUID * UUID := (player_id r, prize_id r).
End PlayerPrize.

(** ** The store behind a session

    Every table is the list of its rows, oldest first.  Rows added through
    the session are appended at once: the session autoflushes before each of
    its queries, so a later read through the same session sees them. *)
Record Store : Type := mkStore {
  players : list Player.t;
  boosts : list Boost.t;
  player_boosts : list PlayerBoost.t;
  levels : list Level.t;
  prizes : list Prize.t;
  player_levels : list PlayerLevel.t;
  level_prizes : list LevelPrize.t;
  player_prizes : list PlayerPrize.t }.

(** The store together with the UTC clock: [clock n] is the value of the
    [n]-th call of [datetime.utcnow()], [ticks] counts the calls made. *)
Record World : Type := mkWorld {
  db : Store;
  clock : nat → datetime;
  ticks : nat }.

(** ** Exceptions, results and the session monad *)

Inductive exn : Type :=
| AttributeError (** attribute access on [None] *).

Inductive result (A : Type) : Type :=
| Ok (a : A)
| Raise (e : exn).
Arguments Ok {A} a.
Arguments Raise {A} e.

#[global] Instance result_ret : MRet result := λ A a, Ok a.
#[global] Instance result_bind : MBind result := λ A B f m,
  match m with
  | Ok a => f a
  | Raise e => Raise e
  end.

Definition session (A : Type) : Type := World → result (A * World).

#[global] Instance session_ret : MRet session := λ A a w, Ok (a, w).
#[global] Instance session_bind : MBind session := λ A B f m w,
  match m w with
  | Ok (a, w') => f a w'
  | Raise e => Raise e
  end.

(** [datetime.utcnow()]. *)
Definition utcnow : session datetime := λ w,
  Ok (clock w (ticks w),
      {| db := db w; clock := clock w; ticks := S (ticks w) |}).

(** A read-only query on the store. *)
Definition query {A : Type} (q : Store → A) : session A := λ w, Ok (q (db w), w).

(** A write to the store. *)
Definition write (f : Store → Store) : session unit := λ w,
  Ok (tt, {| db := f (db w); clock := clock w; ticks := ticks w |}).

(** [for x in xs: body(x)]. *)
Fixpoint for_each {A : Type} (xs : list A) (body : A → session unit) : session unit :=
  match xs with
  | [] => mret tt
  | x :: xs' => body x ;; for_each xs' body
  end.

(** ** Session primitives used by main.py *)

(** [session.get(PlayerBoost, key)].  The flush that precedes the SELECT is
    taken to pass: the rows the session holds are rows the store accepts. *)
Definition get_PlayerBoost (k : UUID * UUID) (s : Store) : option PlayerBoost.t :=
  head (filter (λ r, PlayerBoost.key r = k) (player_boosts s)).

(** [session.get(PlayerLevel, key)]. *)
Definition get_PlayerLevel (k : UUID * UUID) (s : Store) : option PlayerLevel.t :=
  head (filter (λ r, PlayerLevel.key r = k) (player_levels s)).

(** [pb.amount += amount] on the object with primary key [k]: the UPDATE the
    session emits for it. *)
Definition add_to_amount (k : UUID * UUID) (amount : Z) (s : Store) : Store :=
  {| players := players s;
     boosts := boosts s;
     player_boosts :=
       (λ r, if decide (PlayerBoost.key r = k)
             then PlayerBoost.add_amount r amount
             else r) <$> player_boosts s;
     levels := levels s;
     prizes := prizes s;
     player_levels := player_levels s;
     level_prizes := level_prizes s;
     player_prizes := player_prizes s |}.

(** [session.add(PlayerBoost(...))]. *)
Definition add_PlayerBoost (r : PlayerBoost.t) (s : Store) : Store :=
  {| players := players s;
     boosts := boosts s;
     player_boosts := player_boosts s ++ [r];
     levels := levels s;
     prizes := prizes s;
     player_levels := player_levels s;
     level_prizes := level_prizes s;
     player_prizes := player_prizes s |}.

(** [session.add(PlayerPrize(...))]. *)
Definition add_PlayerPrize (r : PlayerPrize.t) (s : Store) : Store :=
  {| players := players s;
     boosts := boosts s;
     player_boosts := player_boosts s;
     levels := levels s;
     prizes := prizes s;
     player_levels := player_levels s;
     level_prizes := level_prizes s;
     player_prizes := player_prizes s ++ [r] |}.

(** [select(Prize).join(LevelPrize).where(LevelPrize.level_id == level_id)]:
    one result per pair of a prize and a [level_prizes] row of the level that
    references it. *)
Definition select_prizes_of_level (level_id : UUID) (s : Store) : list Prize.t :=
  p ← prizes s;
  lp ← filter (λ lp, LevelPrize.prize_id lp = Prize.id p
                     ∧ LevelPrize.level_id lp = level_id) (level_prizes s);
  [p].

(** [exists().where(PlayerPrize.player_id == .., PlayerPrize.prize_id == ..)]. *)
Definition exists_PlayerPrize (player_id prize_id : UUID) (s : Store) : bool :=
  bool_decide (Exists (λ r, PlayerPrize.player_id r = player_id
                            ∧ PlayerPrize.prize_id r = prize_id) (player_prizes s)).

(** ** The methods of [Player] *)

(** [Player.login]: returns [self] as the call leaves it. *)
Definition login (self : Player.t) : session Player.t :=
  now ← utcnow;
  let first_login' :=
    match Player.first_login self with
    | None => Some now
    | Some f => Some f
    end in
  let points' :=
    match Player.last_login self with
    | None => Player.points self + 10
    | Some l =>
        if Datetime.date_ltb (Datetime.date_of l) (Datetime.date_of now)
        then Player.points self + 10
        else Player.points self
    end in
  mret {| Player.id := Player.id self;
          Player.first_login := first_login';
          Player.last_login := Some now;
          Player.points := points' |}.

(** [Player.add_boost]. *)
Definition add_boost (self : Player.t) (boost_id : UUID) (amount : Z) : session unit :=
  pb ← query (get_PlayerBoost (Player.id self, boost_id));
  match pb with
  | Some pb => write (add_to_amount (PlayerBoost.key pb) amount)
  | None =>
      now ← utcnow;
      write (add_PlayerBoost {| PlayerBoost.player_id := Player.id self;
                                PlayerBoost.boost_id := boost_id;
                                PlayerBoost.amount := amount;
                                PlayerBoost.created_at := now |})
  end.

(** [Player.give_prizes_for_level]. *)
Definition give_prizes_for_level (self : Player.t) (level_id : UUID) : session unit :=
  pl ← query (get_PlayerLevel (Player.id self, level_id));
  match pl with
  | None => mret tt
  | Some pl =>
      match PlayerLevel.completed pl with
      | None => mret tt
      | Some _ =>
          prizes ← query (select_prizes_of_level level_id);
          for_each prizes (λ prize,
            already ← query (exists_PlayerPrize (Player.id self) (Prize.id prize));
            if already : bool then mret tt
            else
              now ← utcnow;
              write (add_PlayerPrize {| PlayerPrize.player_id := Player.id self;
                                        PlayerPrize.prize_id := Prize.id prize;
                                        PlayerPrize.received_at := now |}))
      end
  end.

(** ** The export *)

(** A value handed to [csv.writer.writerow]. *)
Inductive cell : Type :=
| CUuid (u : UUID)
| CStr (s : string)
| CBool (b : bool).

(** The right-hand side of a LEFT OUTER JOIN: the matching rows, or one
    null-extended row when there is none. *)
Definition outer {B : Type} (matches : list B) : list (option B) :=
  match matches with
  | [] => [None]
  | _ => Some <$> matches
  end.

(** The relationship [PlayerLevel.level] (many to one). *)
Definition PlayerLevel_level (s : Store) (pl : PlayerLevel.t) : option Level.t :=
  head (filter (λ lv, Level.id lv = PlayerLevel.level_id pl) (levels s)).

(** The order of the primary key of [level_prizes] among the rows of one
    level: by [prize_id]. *)
Definition prize_id_le (a b : LevelPrize.t) : Prop :=
  (LevelPrize.prize_id a ≤ LevelPrize.prize_id b)%N.

#[global] Instance prize_id_le_dec : RelDecision prize_id_le.
Proof. intros a b. unfold prize_id_le. apply _. Defined.

(** The relationship [Level.prizes] (one to many, rows of [level_prizes]).
    It declares no [order_by]: the rows of the level come as the store
    finds them, through the index of the primary key
    (level_id, prize_id), hence by ascending [prize_id] and not in the order
    of their insertion. *)
Definition Level_prizes (s : Store) (lv : Level.t) : list LevelPrize.t :=
  merge_sort prize_id_le
    (filter (λ lp, LevelPrize.level_id lp = Level.id lv) (level_prizes s)).

(** The relationship [LevelPrize.prize] (many to one). *)
Definition LevelPrize_prize (s : Store) (lp : LevelPrize.t) : option Prize.t :=
  head (filter (λ p, Prize.id p = LevelPrize.prize_id lp) (prizes s)).

(** [session.query(PlayerLevel).join(PlayerLevel.level)
      .outerjoin(Level.prizes).outerjoin(LevelPrize.prize)] iterated through
    [yield_per(1000)].  The statement selects the columns of [player_levels]
    from the join, and the iteration yields the [PlayerLevel] of each row of
    its result: a [Query] merges the rows that carry one entity only when it
    is iterated without [yield_per]; in batches it hands them on as they
    come. *)
Definition export_query (s : Store) : list PlayerLevel.t :=
  pl ← player_levels s;
  lv ← filter (λ lv, Level.id lv = PlayerLevel.level_id pl) (levels s);
  olp ← outer (Level_prizes s lv);
  _ ← match olp with
      | None => [None]
      | Some lp => outer (filter (λ p, Prize.id p = LevelPrize.prize_id lp) (prizes s))
      end;
  [pl].

(** The body of the loop: the row written for [pl]. *)
Definition export_row (s : Store) (pl : PlayerLevel.t) : result (list cell) :=
  match PlayerLevel_level s pl with
  | None => Raise AttributeError
  | Some level =>
      let level_title := Level.title level in
      let completed := bool_decide (is_Some (PlayerLevel.completed pl)) in
      prize_title ←
        match Level_prizes s level with
        | [] => Ok ""%string
        | lp :: _ =>
            match LevelPrize_prize s lp with
            | None => Raise AttributeError
            | Some prize => Ok (Prize.title prize)
            end
        end;
      Ok [CUuid (PlayerLevel.player_id pl); CStr level_title;
          CBool completed; CStr prize_title]
  end.

Definition csv_header : list cell :=
  [CStr "player_id"; CStr "level_title"; CStr "completed"; CStr "prize_title"].

(** [export_player_levels_to_csv]: the rows written to the file, header
    first, or the exception that ends the loop. *)
Definition export_player_levels_to_csv (s : Store) : result (list (list cell)) :=
  rows ← mapM (export_row s) (export_query s);
  Ok (csv_header :: rows).

(** ** Repeated calls and call sequences *)

(** [n] calls of the same operation, one after the other. *)
Fixpoint repeat_call (n : nat) (m : session unit) : session unit :=
  match n with
  | O => mret tt
  | S n' => m ;; repeat_call n' m
  end.

(** The player with identifier [player_id], as the session holds it. *)
Definition get_Player (player_id : UUID) (s : Store) : option Player.t :=
  head (filter (λ p, Player.id p = player_id) (players s)).

(** Writing a mutated [Player] back to its row. *)
Definition put_Player (p : Player.t) (s : Store) : Store :=
  {| players := (λ q, if decide (Player.id q = Player.id p) then p else q) <$> players s;
     boosts := boosts s;
     player_boosts := player_boosts s;
     levels := levels s;
     prizes := prizes s;
     player_levels := player_levels s;
     level_prizes := level_prizes s;
     player_prizes := player_prizes s |}.

(** The calls a client makes on the progression methods. *)
Inductive call : Type :=
| Login (player_id : UUID)
| AddBoost (self : Player.t) (boost_id : UUID) (amount : Z)
| GivePrizes (self : Player.t) (level_id : UUID).

(** [add_boost] is called with a non-negative amount. *)
Definition admissible (c : call) : Prop :=
  match c with
  | AddBoost _ _ amount => 0 ≤ amount
  | _ => True
  end.

Definition perform (c : call) : session unit :=
  match c with
  | Login player_id =>
      p ← query (get_Player player_id);
      match p with
      | None => mret tt
      | Some self => self' ← login self; write (put_Player self')
      end
  | AddBoost self boost_id amount => add_boost self boost_id amount
  | GivePrizes self level_id => give_prizes_for_level self level_id
  end.

(** The worlds reachable from [w0] by admissible calls. *)
Inductive reachable (w0 : World) : World → Prop :=
| reachable_refl : reachable w0 w0
| reachable_step w c w' :
    reachable w0 w → admissible c → perform c w = Ok (tt, w') → reachable w0 w'.

(** ** Constraints declared by the schema *)

(** Primary key: no two rows of a table share their key. *)
Definition pk_unique {A K : Type} (key : A → K) (rows : list A) : Prop :=
  NoDup (key <$> rows).

(** [ForeignKey("boosts.id")] of [player_boosts.boost_id]. *)
Definition fk_PlayerBoost_boost (s : Store) : Prop :=
  ∀ r, r ∈ player_boosts s → PlayerBoost.boost_id r ∈ (Boost.id <$> boosts s).

(** [ForeignKey("levels.id")] of [player_levels.level_id]. *)
Definition fk_PlayerLevel_level (s : Store) : Prop :=
  ∀ r, r ∈ player_levels s → PlayerLevel.level_id r ∈ (Level.id <$> levels s).

(** [ForeignKey("prizes.id")] of [level_prizes.prize_id]. *)
Definition fk_LevelPrize_prize (s : Store) : Prop :=
  ∀ r, r ∈ level_prizes s → LevelPrize.prize_id r ∈ (Prize.id <$> prizes s).

(** [CheckConstraint("amount >= 0")]. *)
Definition check_playerboost_amount_nonnegative (s : Store) : Prop :=
  ∀ r, r ∈ player_boosts s → 0 ≤ PlayerBoost.amount r.

(** [CheckConstraint("score >= 0")]. *)
Definition check_playerlevel_score_nonnegative (s : Store) : Prop :=
  ∀ r, r ∈ player_levels s → 0 ≤ PlayerLevel.score r.

(** The part of the schema the progression methods must keep. *)
Definition ledger_inv (s : Store) : Prop :=
  check_playerboost_amount_nonnegative s
  ∧ check_playerlevel_score_nonnegative s
  ∧ pk_unique PlayerBoost.key (player_boosts s).

(** The player holds the prize: a [player_prizes] row for the pair. *)
Definition holds (s : Store) (player_id prize_id : UUID) : Prop :=
  Exists (λ r, PlayerPrize.player_id r = player_id
               ∧ PlayerPrize.prize_id r = prize_id) (player_prizes s).

(** The [level_prizes] rows of a level, in insertion order. *)
Definition associated (s : Store) (level_id : UUID) : list LevelPrize.t :=
  filter (λ lp, LevelPrize.level_id lp = level_id) (level_prizes s).

(** Every table but [player_prizes] is the same in both stores. *)
Definition same_but_player_prizes (s s' : Store) : Prop :=
  players s' = players s ∧ boosts s' = boosts s
  ∧ player_boosts s' = player_boosts s ∧ levels s' = levels s
  ∧ prizes s' = prizes s ∧ player_levels s' = player_levels s
  ∧ level_prizes s' = level_prizes s.

(** The body of the loop over the prizes of the level. *)
Definition grant_body (self : Player.t) (prize : Prize.t) : session unit :=
  already ← query (exists_PlayerPrize (Player.id self) (Prize.id prize));
  if already : bool then mret tt
  else
    now ← utcnow;
    write (add_PlayerPrize {| PlayerPrize.player_id := Player.id self;
                              PlayerPrize.prize_id := Prize.id prize;
                              PlayerPrize.received_at := now |}).

(** ** Sample data

    The fixtures of test_methods.py and the scenario of call_example.py, cut
    down to one player. *)

Definition day1_0900 : datetime := Datetime.mk 2024 5 17 9 0 0 0.
Definition day1_2359 : datetime := Datetime.mk 2024 5 17 23 59 59 0.
Definition day2_0000 : datetime := Datetime.mk 2024 5 18 0 0 0 0.

(** A clock that reads 09:00 and then 23:59:59 on the same day, and the next
    day afterwards. *)
Definition sample_clock (n : nat) : datetime :=
  match n with
  | O => day1_0900
  | S O => day1_2359
  | _ => day2_0000
  end.

Definition empty_store : Store :=
  {| players := []; boosts := []; player_boosts := []; levels := [];
     prizes := []; player_levels := []; level_prizes := []; player_prizes := [] |}.

Definition alice : Player.t :=
  {| Player.id := 1%N; Player.first_login := None;
     Player.last_login := None; Player.points := 0 |}.

(** The scenario of the unit test: a player and one catalog boost. *)
Definition store_with_boost : Store :=
  {| players := [alice];
     boosts := [{| Boost.id := 10%N; Boost.type := DOUBLE_POINTS;
                   Boost.description := "x2" |}];
     player_boosts := []; levels := []; prizes := [];
     player_levels := []; level_prizes := []; player_prizes := [] |}.

(** One player, level 20 with the prizes X and Y attached, completed. *)
Definition scenario_store : Store :=
  {| players := [alice];
     boosts := [{| Boost.id := 10%N; Boost.type := SPEED;
                   Boost.description := "speed" |}];
     player_boosts := [];
     levels := [{| Level.id := 20%N; Level.title := "Level 1"; Level.order := 1 |}];
     prizes := [{| Prize.id := 30%N; Prize.title := "X" |};
                {| Prize.id := 31%N; Prize.title := "Y" |}];
     player_levels :=
       [{| PlayerLevel.player_id := 1%N; PlayerLevel.level_id := 20%N;
           PlayerLevel.completed := Some day1_0900; PlayerLevel.score := 100 |}];
     level_prizes := [{| LevelPrize.level_id := 20%N; LevelPrize.prize_id := 30%N |};
                      {| LevelPrize.level_id := 20%N; LevelPrize.prize_id := 31%N |}];
     player_prizes := [] |}.

(** The fixture of the unit test: one level with one prize, the level
    entered by the player and not completed. *)
Definition test_store : Store :=
  {| players := [alice];
     boosts := [{| Boost.id := 10%N; Boost.type := DOUBLE_POINTS;
                   Boost.description := "x2" |}];
     player_boosts := [];
     levels := [{| Level.id := 20%N; Level.title := "Test Level"; Level.order := 1 |}];
     prizes := [{| Prize.id := 30%N; Prize.title := "Test Prize" |}];
     player_levels :=
       [{| PlayerLevel.player_id := 1%N; PlayerLevel.level_id := 20%N;
           PlayerLevel.completed := None; PlayerLevel.score := 0 |}];
     level_prizes := [{| LevelPrize.level_id := 20%N; LevelPrize.prize_id := 30%N |}];
     player_prizes := [] |}.


(** ** The boost catalogue *)

#[global] Instance BoostType_eq_dec : EqDecision BoostType.
Proof. solve_decision. Defined.

(** The description given to [BoostType.__init__] with each member. *)
Definition BoostType_description (b : BoostType) : string :=
  match b with
  | DOUBLE_POINTS => "x2 к очкам"
  | SPEED => "ускорение"
  | SHIELD => "щит от потерь"
  end.

(** [Boost.create(boost_type)]; [id] is the identifier the column default
    gives the row. *)
Definition Boost_create (id : UUID) (boost_type : BoostType) : Boost.t :=
  {| Boost.id := id;
     Boost.type := boost_type;
     Boost.description := BoostType_description boost_type |}.

(** ** Sequences of logins *)

(** [n] calls of [login] on the same player object. *)
Fixpoint repeat_login (n : nat) (self : Player.t) : session Player.t :=
  match n with
  | O => mret self
  | S n' => self' ← login self; repeat_login n' self'
  end.

(** ** The remaining constraints of the schema *)

(** [ForeignKey("players.id")] of [player_boosts.player_id]. *)
Definition fk_PlayerBoost_player (s : Store) : Prop :=
  ∀ r, r ∈ player_boosts s → PlayerBoost.player_id r ∈ (Player.id <$> players s).

(** [ForeignKey("players.id")] of [player_levels.player_id]. *)
Definition fk_PlayerLevel_player (s : Store) : Prop :=
  ∀ r, r ∈ player_levels s → PlayerLevel.player_id r ∈ (Player.id <$> players s).

(** [ForeignKey("levels.id")] of [level_prizes.level_id]. *)
Definition fk_LevelPrize_level (s : Store) : Prop :=
  ∀ r, r ∈ level_prizes s → LevelPrize.level_id r ∈ (Level.id <$> levels s).

(** [ForeignKey("players.id")] of [player_prizes.player_id]. *)
Definition fk_PlayerPrize_player (s : Store) : Prop :=
  ∀ r, r ∈ player_prizes s → PlayerPrize.player_id r ∈ (Player.id <$> players s).

(** [ForeignKey("prizes.id")] of [player_prizes.prize_id]. *)
Definition fk_PlayerPrize_prize (s : Store) : Prop :=
  ∀ r, r ∈ player_prizes s → PlayerPrize.prize_id r ∈ (Prize.id <$> prizes s).

(** Every constraint main.py declares on its tables: primary keys, the
    unique [boosts.type], foreign keys and the two CHECKs. *)
Record schema_valid (s : Store) : Prop := mkSchemaValid {
  sv_pk_players : pk_unique Player.id (players s);
  sv_pk_boosts : pk_unique Boost.id (boosts s);
  sv_unique_boost_type : pk_unique Boost.type (boosts s);
  sv_pk_player_boosts : pk_unique PlayerBoost.key (player_boosts s);
  sv_pk_levels : pk_unique Level.id (levels s);
  sv_pk_prizes : pk_unique Prize.id (prizes s);
  sv_pk_player_levels : pk_unique PlayerLevel.key (player_levels s);
  sv_pk_level_prizes : pk_unique LevelPrize.key (level_prizes s);
  sv_pk_player_prizes : pk_unique PlayerPrize.key (player_prizes s);
  sv_fk_PlayerBoost_player : fk_PlayerBoost_player s;
  sv_fk_PlayerBoost_boost : fk_PlayerBoost_boost s;
  sv_fk_PlayerLevel_player : fk_PlayerLevel_player s;
  sv_fk_PlayerLevel_level : fk_PlayerLevel_level s;
  sv_fk_LevelPrize_level : fk_LevelPrize_level s;
  sv_fk_LevelPrize_prize : fk_LevelPrize_prize s;
  sv_fk_PlayerPrize_player : fk_PlayerPrize_player s;
  sv_fk_PlayerPrize_prize : fk_PlayerPrize_prize s;
  sv_check_amount : check_playerboost_amount_nonnegative s;
  sv_check_score : check_playerlevel_score_nonnegative s }.

(** A call whose player and boost exist in the store, with a non-negative
    amount. *)
Definition well_referenced (s : Store) (c : call) : Prop :=
  match c with
  | Login _ => True
  | AddBoost self boost_id amount =>
      0 ≤ amount
      ∧ Player.id self ∈ (Player.id <$> players s)
      ∧ boost_id ∈ (Boost.id <$> boosts s)
  | GivePrizes self _ => Player.id self ∈ (Player.id <$> players s)
  end.

(** Every table but [player_boosts] is the same in both stores. *)
Definition same_but_player_boosts (s s' : Store) : Prop :=
  players s' = players s ∧ boosts s' = boosts s
  ∧ levels s' = levels s ∧ prizes s' = prizes s
  ∧ player_levels s' = player_levels s
  ∧ level_prizes s' = level_prizes s
  ∧ player_prizes s' = player_prizes s.


(** [store_with_boost] after the player received three units of the boost. *)
Definition boosted_store : Store :=
  {| players := [alice];
     boosts := [Boost_create 10%N DOUBLE_POINTS];
     player_boosts :=
       [{| PlayerBoost.player_id := 1%N; PlayerBoost.boost_id := 10%N;
           PlayerBoost.amount := 3; PlayerBoost.created_at := day1_0900 |}];
     levels := []; prizes := [];
     player_levels := []; level_prizes := []; player_prizes := [] |}.


(** The store with its [player_levels] table replaced. *)
Definition with_player_levels (rows : list PlayerLevel.t) (s : Store) : Store :=
  {| players := players s;
     boosts := boosts s;
     player_boosts := player_boosts s;
     levels := levels s;
     prizes := prizes s;
     player_levels := rows;
     level_prizes := level_prizes s;
     player_prizes := player_prizes s |}.

(** The catalogue of call_example.py: one boost per type, created in the
    order of [types] with the identifiers [ids]. *)
Definition boost_catalogue (ids : list UUID) (types : list BoostType) : list Boost.t :=
  zip_with Boost_create ids types.




(** * Properties *)

(** ** Generic facts *)

Lemma head_filter_None {A : Type} (P : A → Prop) `{!∀ x, Decision (P x)} (l : list A) :
  head (filter P l) = None ↔ ∀ x, x ∈ l → ¬ P x.
Proof.
  rewrite head_None. split.
  - intros E x Hx HP. eapply filter_nil_not_elem_of; eauto.
  - intros Hall. induction l as [|a l IH]; [done|].
    rewrite filter_cons. destruct (decide (P a)) as [Pa|_].
    + exfalso. apply (Hall a); [left | done].
    + apply IH. intros x Hx. apply Hall. by right.
Qed.

Lemma head_filter_holds {A : Type} (P : A → Prop) `{!∀ x, Decision (P x)} (l : list A) x :
  head (filter P l) = Some x → P x ∧ x ∈ l.
Proof.
  intros Hx. apply head_Some_elem_of in Hx. by apply list_elem_of_filter in Hx.
Qed.

Lemma date_ltb_irrefl d : Datetime.date_ltb d d = false.
Proof.
  unfold Datetime.date_ltb.
  rewrite !Z.ltb_irrefl, !Z.eqb_refl. reflexivity.
Qed.

(** Unfolding of the monad's operations. *)
Ltac run_session :=
  unfold mbind, session_bind, mret, session_ret, query, write, utcnow; simpl.

(** ** login *)

Lemma login_run self w :
  login self w =
  Ok ({| Player.id := Player.id self;
         Player.first_login :=
           match Player.first_login self with
           | None => Some (clock w (ticks w))
           | Some f => Some f
           end;
         Player.last_login := Some (clock w (ticks w));
         Player.points :=
           match Player.last_login self with
           | None => Player.points self + 10
           | Some l =>
               if Datetime.date_ltb (Datetime.date_of l)
                                    (Datetime.date_of (clock w (ticks w)))
               then Player.points self + 10
               else Player.points self
           end |},
      {| db := db w; clock := clock w; ticks := S (ticks w) |}).
Proof. reflexivity. Qed.

(** C3: two calls of [login] on the same UTC day, the first of them on a new
    day for the player (or with [last_login] unset), add 10 points in total:
    the first call adds 10, the second adds nothing. *)
Theorem login_twice_same_day (p : Player.t) (w : World) :
  let now1 := clock w (ticks w) in
  let now2 := clock w (S (ticks w)) in
  (Player.last_login p = None
   ∨ ∃ l, Player.last_login p = Some l
          ∧ Datetime.date_ltb (Datetime.date_of l) (Datetime.date_of now1) = true) →
  Datetime.date_of now2 = Datetime.date_of now1 →
  ∃ p1 w1 p2 w2,
    login p w = Ok (p1, w1)
    ∧ login p1 w1 = Ok (p2, w2)
    ∧ (p1 ← login p; login p1) w = Ok (p2, w2)
    ∧ Player.points p1 = Player.points p + 10
    ∧ Player.points p2 = Player.points p1
    ∧ Player.points p2 = Player.points p + 10.
Proof.
  intros now1 now2 Hnew Hday.
  assert (Hp1 : match Player.last_login p with
                | None => Player.points p + 10
                | Some l =>
                    if Datetime.date_ltb (Datetime.date_of l) (Datetime.date_of now1)
                    then Player.points p + 10 else Player.points p
                end = Player.points p + 10).
  { destruct Hnew as [-> | (l & -> & ->)]; reflexivity. }
  eexists _, _, _, _.
  split; [apply login_run|].
  split; [apply login_run|].
  split.
  { unfold mbind, session_bind. rewrite login_run. apply login_run. }
  simpl. fold now1 now2. rewrite Hday, date_ltb_irrefl, Hp1. done.
Qed.

Lemma login_twice_same_day_witness :
  ∃ p1 w1 p2 w2,
    login alice (mkWorld empty_store sample_clock 0) = Ok (p1, w1)
    ∧ login p1 w1 = Ok (p2, w2)
    ∧ (p1 ← login alice; login p1) (mkWorld empty_store sample_clock 0) = Ok (p2, w2)
    ∧ Player.points p1 = Player.points alice + 10
    ∧ Player.points p2 = Player.points p1
    ∧ Player.points p2 = Player.points alice + 10.
Proof.
  apply (login_twice_same_day alice (mkWorld empty_store sample_clock 0)).
  - left. reflexivity.
  - reflexivity.
Defined.

(** C9: a repeated call of [login] on the same UTC day changes [last_login]
    only; the first call sets [first_login] exactly when it was unset. *)
Theorem login_repeat_same_day_frame (p : Player.t) (w : World) :
  let now1 := clock w (ticks w) in
  let now2 := clock w (S (ticks w)) in
  Datetime.date_of now2 = Datetime.date_of now1 →
  ∃ p1 w1 p2 w2,
    login p w = Ok (p1, w1)
    ∧ login p1 w1 = Ok (p2, w2)
    ∧ p2 = {| Player.id := Player.id p1;
              Player.first_login := Player.first_login p1;
              Player.last_login := Some now2;
              Player.points := Player.points p1 |}
    ∧ db w2 = db w
    ∧ Player.first_login p1 =
        match Player.first_login p with
        | None => Some now1
        | Some f => Some f
        end.
Proof.
  intros now1 now2 Hday.
  eexists _, _, _, _.
  split; [apply login_run|].
  split; [apply login_run|].
  simpl. fold now1 now2. rewrite Hday, date_ltb_irrefl.
  repeat split. destruct (Player.first_login p); reflexivity.
Qed.

Lemma login_repeat_same_day_frame_witness :
  ∃ p1 w1 p2 w2,
    login alice (mkWorld empty_store sample_clock 0) = Ok (p1, w1)
    ∧ login p1 w1 = Ok (p2, w2)
    ∧ p2 = {| Player.id := Player.id p1;
              Player.first_login := Player.first_login p1;
              Player.last_login := Some day1_2359;
              Player.points := Player.points p1 |}
    ∧ db w2 = empty_store
    ∧ Player.first_login p1 = Some day1_0900.
Proof.
  apply (login_repeat_same_day_frame alice (mkWorld empty_store sample_clock 0)).
  reflexivity.
Defined.

(** ** add_boost *)

Lemma fmap_unchanged {A : Type} (f : A → A) (l : list A) :
  (∀ x, x ∈ l → f x = x) → f <$> l = l.
Proof.
  induction l as [|a l IH]; intros Hf; [done|].
  rewrite fmap_cons, Hf by left. f_equal. apply IH. intros x Hx. apply Hf. by right.
Qed.

Lemma add_boost_new self boost_id amount w :
  get_PlayerBoost (Player.id self, boost_id) (db w) = None →
  add_boost self boost_id amount w =
  Ok (tt, {| db := add_PlayerBoost
                     {| PlayerBoost.player_id := Player.id self;
                        PlayerBoost.boost_id := boost_id;
                        PlayerBoost.amount := amount;
                        PlayerBoost.created_at := clock w (ticks w) |} (db w);
             clock := clock w;
             ticks := S (ticks w) |}).
Proof. intros Hget. unfold add_boost. run_session. by rewrite Hget. Qed.

Lemma add_boost_existing self boost_id amount w pb :
  get_PlayerBoost (Player.id self, boost_id) (db w) = Some pb →
  add_boost self boost_id amount w =
  Ok (tt, {| db := add_to_amount (Player.id self, boost_id) amount (db w);
             clock := clock w;
             ticks := ticks w |}).
Proof.
  intros Hget. unfold add_boost. run_session. rewrite Hget.
  apply head_filter_holds in Hget as [-> _]. reflexivity.
Qed.

Lemma get_PlayerBoost_None k s :
  get_PlayerBoost k s = None ↔ ∀ r, r ∈ player_boosts s → PlayerBoost.key r ≠ k.
Proof. apply head_filter_None. Qed.

Lemma filter_add_to_amount k amount s :
  filter (λ r, PlayerBoost.key r = k) (player_boosts (add_to_amount k amount s)) =
  (λ r, PlayerBoost.add_amount r amount)
    <$> filter (λ r, PlayerBoost.key r = k) (player_boosts s).
Proof.
  simpl. induction (player_boosts s) as [|r l IH]; [done|].
  rewrite fmap_cons, !filter_cons.
  destruct (decide (PlayerBoost.key r = k)) as [Hk|Hk].
  - rewrite decide_True by done. rewrite fmap_cons. by f_equal.
  - rewrite decide_False by done. exact IH.
Qed.

(** C2: [add_boost p b amount1] followed by [add_boost p b amount2] leaves
    exactly one [player_boosts] row for (p, b).  Starting without a row, the
    row is new and its amount is [amount1 + amount2]; starting from a row,
    it is that row with [amount1 + amount2] added to its amount, and no row
    is inserted. *)
Theorem add_boost_twice_accumulates
    (p : Player.t) (b : UUID) (amount1 amount2 : Z) (w : World) :
  0 ≤ amount1 → 0 ≤ amount2 →
  let rows_of s :=
    filter (λ r, PlayerBoost.key r = (Player.id p, b)) (player_boosts s) in
  let new_row :=
    {| PlayerBoost.player_id := Player.id p;
       PlayerBoost.boost_id := b;
       PlayerBoost.amount := amount1 + amount2;
       PlayerBoost.created_at := clock w (ticks w) |} in
  ∃ w',
    (add_boost p b amount1 ;; add_boost p b amount2) w = Ok (tt, w')
    ∧ (rows_of (db w) = [] →
       player_boosts (db w') = player_boosts (db w) ++ [new_row]
       ∧ rows_of (db w') = [new_row])
    ∧ (∀ r0, rows_of (db w) = [r0] →
       rows_of (db w') = [PlayerBoost.add_amount r0 (amount1 + amount2)]
       ∧ length (player_boosts (db w')) = length (player_boosts (db w))).
Proof.
  intros _ _ rows_of new_row.
  destruct (rows_of (db w)) as [|r0 rest] eqn:Hrows; subst rows_of; simpl in Hrows.
  - assert (Hfresh : ∀ r, r ∈ player_boosts (db w) →
                          PlayerBoost.key r ≠ (Player.id p, b)).
    { apply get_PlayerBoost_None. unfold get_PlayerBoost. by rewrite Hrows. }
    eexists. split.
    { unfold mbind at 1, session_bind.
      rewrite add_boost_new by (by apply get_PlayerBoost_None).
      erewrite add_boost_existing; [reflexivity|].
      unfold get_PlayerBoost. simpl.
      rewrite filter_app, Hrows, filter_cons_True by done. reflexivity. }
    split; [|done]. intros _. simpl. rewrite fmap_app. simpl.
    rewrite decide_True by done.
    rewrite fmap_unchanged.
    2:{ intros r Hr. rewrite decide_False; [done|]. by apply Hfresh. }
    split; [done|].
    rewrite filter_app, Hrows, filter_cons_True by done. reflexivity.
  - eexists. split.
    { unfold mbind at 1, session_bind.
      erewrite add_boost_existing by (unfold get_PlayerBoost; by rewrite Hrows).
      erewrite add_boost_existing; [reflexivity|].
      unfold get_PlayerBoost. cbn [db].
      rewrite filter_add_to_amount, Hrows. reflexivity. }
    split; [done|]. intros r1 [= <- ->]. cbn [db]. split.
    + rewrite !filter_add_to_amount, Hrows. simpl. f_equal.
      unfold PlayerBoost.add_amount. simpl. f_equal. lia.
    + simpl. by rewrite !length_fmap.
Qed.

Lemma add_boost_twice_accumulates_witness :
  ∃ w',
    (add_boost alice 10%N 3 ;; add_boost alice 10%N 2)
      (mkWorld store_with_boost sample_clock 0) = Ok (tt, w')
    ∧ player_boosts (db w') =
        [{| PlayerBoost.player_id := 1%N; PlayerBoost.boost_id := 10%N;
            PlayerBoost.amount := 3 + 2;
            PlayerBoost.created_at := day1_0900 |}].
Proof.
  destruct (add_boost_twice_accumulates alice 10%N 3 2
              (mkWorld store_with_boost sample_clock 0))
    as (w' & Hrun & Hnew & _).
  - lia.
  - lia.
  - exists w'. split; [exact Hrun|]. apply Hnew. reflexivity.
Defined.

(** C5, as the code has it: [add_boost] does not look the boost up.  For a
    [boost_id] outside the catalog it returns normally and adds the row, and
    the store then breaks the foreign key of [player_boosts.boost_id]. *)
Theorem add_boost_unknown_boost_adds_row
    (p : Player.t) (boost_id : UUID) (amount : Z) (w : World) :
  boost_id ∉ (Boost.id <$> boosts (db w)) →
  fk_PlayerBoost_boost (db w) →
  let row := {| PlayerBoost.player_id := Player.id p;
                PlayerBoost.boost_id := boost_id;
                PlayerBoost.amount := amount;
                PlayerBoost.created_at := clock w (ticks w) |} in
  ∃ w',
    add_boost p boost_id amount w = Ok (tt, w')
    ∧ db w' = add_PlayerBoost row (db w)
    ∧ player_boosts (db w') = player_boosts (db w) ++ [row]
    ∧ boosts (db w') = boosts (db w)
    ∧ ¬ fk_PlayerBoost_boost (db w').
Proof.
  intros Hunknown Hfk row.
  eexists. split.
  { apply add_boost_new, get_PlayerBoost_None.
    intros r Hr Hkey. apply Hunknown.
    injection Hkey as _ <-. by apply Hfk. }
  simpl. repeat split.
  intros Hfk'. apply Hunknown.
  apply (Hfk' row). simpl. apply elem_of_app. right. by left.
Qed.

Lemma add_boost_unknown_boost_adds_row_witness :
  ∃ w',
    add_boost alice 77%N 1 (mkWorld store_with_boost sample_clock 0) = Ok (tt, w')
    ∧ db w' = add_PlayerBoost
                {| PlayerBoost.player_id := 1%N; PlayerBoost.boost_id := 77%N;
                   PlayerBoost.amount := 1; PlayerBoost.created_at := day1_0900 |}
                store_with_boost
    ∧ player_boosts (db w') =
        [] ++ [{| PlayerBoost.player_id := 1%N; PlayerBoost.boost_id := 77%N;
                  PlayerBoost.amount := 1; PlayerBoost.created_at := day1_0900 |}]
    ∧ boosts (db w') = boosts store_with_boost
    ∧ ¬ fk_PlayerBoost_boost (db w').
Proof.
  apply (add_boost_unknown_boost_adds_row alice 77%N 1
           (mkWorld store_with_boost sample_clock 0)).
  - simpl. intros Hin. apply list_elem_of_singleton in Hin. discriminate Hin.
  - intros r Hr. simpl in Hr. by apply elem_of_nil in Hr.
Defined.

(** C5 as stated fails: with boost 77 absent from the catalog, [add_boost]
    raises nothing and the session gains a [player_boosts] row. *)
Lemma add_boost_unknown_boost_counterexample :
  (77%N ∉ Boost.id <$> boosts store_with_boost)
  ∧ (∀ e, add_boost alice 77%N 1 (mkWorld store_with_boost sample_clock 0) ≠ Raise e)
  ∧ ∃ w', add_boost alice 77%N 1 (mkWorld store_with_boost sample_clock 0) = Ok (tt, w')
          ∧ player_boosts (db w') ≠ player_boosts store_with_boost.
Proof.
  split; [|split].
  - simpl. intros Hin. apply list_elem_of_singleton in Hin. discriminate Hin.
  - intros e. discriminate.
  - eexists. split; [reflexivity|]. discriminate.
Qed.

(** ** give_prizes_for_level: the calls that grant nothing *)

Lemma give_prizes_no_row self level_id w :
  get_PlayerLevel (Player.id self, level_id) (db w) = None →
  give_prizes_for_level self level_id w = Ok (tt, w).
Proof. intros Hget. unfold give_prizes_for_level. run_session. by rewrite Hget. Qed.

Lemma give_prizes_not_completed self level_id w pl :
  get_PlayerLevel (Player.id self, level_id) (db w) = Some pl →
  PlayerLevel.completed pl = None →
  give_prizes_for_level self level_id w = Ok (tt, w).
Proof.
  intros Hget Hc. unfold give_prizes_for_level. run_session. by rewrite Hget, Hc.
Qed.

Lemma repeat_call_noop (m : session unit) w n :
  m w = Ok (tt, w) → repeat_call n m w = Ok (tt, w).
Proof.
  intros Hm. induction n as [|n IH]; [done|].
  simpl. unfold mbind, session_bind. by rewrite Hm.
Qed.

(** C6: while the player's [player_levels] row of the level has [completed]
    null, any number of calls of [give_prizes_for_level] returns normally
    and leaves the store, hence [player_prizes], as it was. *)
Theorem give_prizes_incomplete_level_noop
    (p : Player.t) (level_id : UUID) (pl : PlayerLevel.t) (w : World) (n : nat) :
  get_PlayerLevel (Player.id p, level_id) (db w) = Some pl →
  PlayerLevel.completed pl = None →
  give_prizes_for_level p level_id w = Ok (tt, w)
  ∧ repeat_call n (give_prizes_for_level p level_id) w = Ok (tt, w).
Proof.
  intros Hget Hc.
  pose proof (give_prizes_not_completed _ _ _ _ Hget Hc) as Hone.
  split; [done|]. by apply repeat_call_noop.
Qed.

(** C10: without a [player_levels] row for (p, level_id), whether or not the
    level exists in [levels], [give_prizes_for_level] returns normally and
    the store is unchanged. *)
Theorem give_prizes_without_player_level_noop
    (p : Player.t) (level_id : UUID) (w : World) :
  (∀ r, r ∈ player_levels (db w) → PlayerLevel.key r ≠ (Player.id p, level_id)) →
  give_prizes_for_level p level_id w = Ok (tt, w).
Proof.
  intros Hnone. apply give_prizes_no_row. unfold get_PlayerLevel.
  by apply head_filter_None.
Qed.

(** ** give_prizes_for_level: the grant *)

Lemma give_prizes_completed self level_id w pl t :
  get_PlayerLevel (Player.id self, level_id) (db w) = Some pl →
  PlayerLevel.completed pl = Some t →
  give_prizes_for_level self level_id w =
  for_each (select_prizes_of_level level_id (db w)) (grant_body self) w.
Proof.
  intros Hget Hc. unfold give_prizes_for_level. run_session.
  by rewrite Hget, Hc.
Qed.

Lemma grant_body_held self prize w :
  holds (db w) (Player.id self) (Prize.id prize) →
  grant_body self prize w = Ok (tt, w).
Proof.
  intros Hh. unfold grant_body. run_session.
  unfold exists_PlayerPrize. by rewrite bool_decide_eq_true_2.
Qed.

Lemma grant_body_new self prize w :
  ¬ holds (db w) (Player.id self) (Prize.id prize) →
  grant_body self prize w =
  Ok (tt, {| db := add_PlayerPrize
                     {| PlayerPrize.player_id := Player.id self;
                        PlayerPrize.prize_id := Prize.id prize;
                        PlayerPrize.received_at := clock w (ticks w) |} (db w);
             clock := clock w;
             ticks := S (ticks w) |}).
Proof.
  intros Hh. unfold grant_body. run_session.
  unfold exists_PlayerPrize. by rewrite bool_decide_eq_false_2.
Qed.

Lemma holds_add_PlayerPrize s r player_id x :
  holds (add_PlayerPrize r s) player_id x ↔
  holds s player_id x
  ∨ (PlayerPrize.player_id r = player_id ∧ PlayerPrize.prize_id r = x).
Proof.
  unfold holds. simpl. rewrite Exists_app, Exists_cons, Exists_nil. tauto.
Qed.

Lemma holds_app s s' extra player_id x :
  player_prizes s' = player_prizes s ++ extra →
  holds s' player_id x ↔
  holds s player_id x
  ∨ Exists (λ r, PlayerPrize.player_id r = player_id
                 ∧ PlayerPrize.prize_id r = x) extra.
Proof. intros E. unfold holds. rewrite E. apply Exists_app. Qed.

(** The loop adds one row for each prize of the list that the player does
    not hold yet, once per prize identifier. *)
Lemma for_each_grant self (ps : list Prize.t) : ∀ w,
  ∃ w' new,
    for_each ps (grant_body self) w = Ok (tt, w')
    ∧ player_prizes (db w') = player_prizes (db w) ++ new
    ∧ same_but_player_prizes (db w) (db w')
    ∧ clock w' = clock w
    ∧ Forall (λ r, PlayerPrize.player_id r = Player.id self) new
    ∧ NoDup (PlayerPrize.prize_id <$> new)
    ∧ ∀ x, x ∈ PlayerPrize.prize_id <$> new ↔
           x ∈ Prize.id <$> ps ∧ ¬ holds (db w) (Player.id self) x.
Proof.
  induction ps as [|p0 ps IH]; intros w.
  - exists w, []. simpl. rewrite app_nil_r.
    split; [done|]. split; [done|]. split; [by unfold same_but_player_prizes|].
    split; [done|]. split; [constructor|]. split; [constructor|].
    intros x. split.
    + intros Hx. by apply elem_of_nil in Hx.
    + intros [Hx _]. by apply elem_of_nil in Hx.
  - simpl. unfold mbind at 1, session_bind.
    destruct (decide (holds (db w) (Player.id self) (Prize.id p0))) as [Hh|Hh].
    + rewrite grant_body_held by done.
      destruct (IH w) as (w' & new & Hrun & Hpp & Hsame & Hclk & Hall & Hnd & Hel).
      exists w', new.
      split; [done|]. split; [done|]. split; [done|]. split; [done|].
      split; [done|]. split; [done|].
      intros x. split.
      * intros Hx. apply Hel in Hx as [Hx Hnh]. split; [by right | done].
      * intros [Hx Hnh]. apply Hel. split; [|done].
        apply elem_of_cons in Hx as [->|Hx]; [done|done].
    + rewrite grant_body_new by done.
      set (row := {| PlayerPrize.player_id := Player.id self;
                     PlayerPrize.prize_id := Prize.id p0;
                     PlayerPrize.received_at := clock w (ticks w) |}).
      set (w1 := {| db := add_PlayerPrize row (db w); clock := clock w;
                    ticks := S (ticks w) |}).
      destruct (IH w1) as (w' & new & Hrun & Hpp & Hsame & Hclk & Hall & Hnd & Hel).
      exists w', (row :: new). split; [done|].
      split. { rewrite Hpp. simpl. by rewrite <- app_assoc. }
      split. { unfold same_but_player_prizes in *. simpl in Hsame. done. }
      split; [done|].
      split. { constructor; [done|done]. }
      split.
      { rewrite fmap_cons. constructor; [|done].
        intros Hin. apply Hel in Hin as [_ Hn]. apply Hn.
        apply holds_add_PlayerPrize. right. done. }
      intros x. rewrite fmap_cons, !elem_of_cons, Hel. simpl.
      rewrite holds_add_PlayerPrize. simpl.
      destruct (decide (x = Prize.id p0)) as [->|Hne]; [tauto|].
      split.
      * intros [?|[? Hn]]; [done|]. split; [by right|]. tauto.
      * intros [[?|?] Hn]; [done|]. right. split; [done|].
        intros [?|[_ ?]]; [done|]. by apply Hne.
Qed.

Lemma for_each_grant_all_held self (ps : list Prize.t) w :
  (∀ p, p ∈ ps → holds (db w) (Player.id self) (Prize.id p)) →
  for_each ps (grant_body self) w = Ok (tt, w).
Proof.
  induction ps as [|p0 ps IH]; intros Hall; [done|].
  simpl. unfold mbind at 1, session_bind.
  rewrite grant_body_held by (apply Hall; left).
  apply IH. intros p Hp. apply Hall. by right.
Qed.

Lemma elem_of_select_prizes_of_level level_id s p :
  p ∈ select_prizes_of_level level_id s ↔
  p ∈ prizes s
  ∧ ∃ lp, lp ∈ level_prizes s
          ∧ LevelPrize.prize_id lp = Prize.id p
          ∧ LevelPrize.level_id lp = level_id.
Proof.
  unfold select_prizes_of_level. rewrite list_elem_of_bind. split.
  - intros (q & Hin & Hq).
    apply list_elem_of_bind in Hin as (lp & Hp & Hlp).
    apply list_elem_of_singleton in Hp as ->.
    apply list_elem_of_filter in Hlp as [[? ?] ?]. eauto.
  - intros (Hp & lp & Hlp & ? & ?). exists p. split; [|done].
    apply list_elem_of_bind. exists lp. split; [by left|].
    by apply list_elem_of_filter.
Qed.

Lemma select_prizes_ids level_id s x :
  fk_LevelPrize_prize s →
  x ∈ Prize.id <$> select_prizes_of_level level_id s ↔
  x ∈ LevelPrize.prize_id <$> associated s level_id.
Proof.
  intros Hfk. rewrite !list_elem_of_fmap. split.
  - intros (p & -> & Hp).
    apply elem_of_select_prizes_of_level in Hp as (_ & lp & Hlp & Hid & Hl).
    exists lp. split; [done|]. by apply list_elem_of_filter.
  - intros (lp & -> & Hlp). apply list_elem_of_filter in Hlp as [Hl Hlp].
    pose proof (Hfk _ Hlp) as Hin.
    apply list_elem_of_fmap in Hin as (p & Hid & Hp).
    exists p. split; [done|].
    apply elem_of_select_prizes_of_level. split; [done|]. eauto.
Qed.

Lemma associated_prize_ids_NoDup s level_id :
  pk_unique LevelPrize.key (level_prizes s) →
  NoDup (LevelPrize.prize_id <$> associated s level_id).
Proof.
  intros Hpk. apply NoDup_fmap_2_strong.
  - intros a b Ha Hb Hab.
    apply list_elem_of_filter in Ha as [Hla _].
    apply list_elem_of_filter in Hb as [Hlb _].
    destruct a, b; simpl in *; congruence.
  - apply NoDup_filter. by apply NoDup_fmap_1 in Hpk.
Qed.

Lemma filter_all {A : Type} (P : A → Prop) `{!∀ x, Decision (P x)} (l : list A) :
  (∀ x, x ∈ l → P x) → filter P l = l.
Proof.
  induction l as [|a l IH]; intros Hall; [done|].
  rewrite filter_cons_True by (apply Hall; left).
  f_equal. apply IH. intros x Hx. apply Hall. by right.
Qed.

(** C1: once the player's [player_levels] row of the level is completed,
    one call of [give_prizes_for_level] adds exactly one [player_prizes] row
    for each prize associated with the level that the player does not hold
    yet (N rows when the player holds none of the N associated prizes) and
    touches nothing else; a second call right after it changes nothing. *)
Theorem give_prizes_grants_once_and_is_idempotent
    (p : Player.t) (level_id : UUID) (pl : PlayerLevel.t) (t : datetime) (w : World) :
  get_PlayerLevel (Player.id p, level_id) (db w) = Some pl →
  PlayerLevel.completed pl = Some t →
  pk_unique LevelPrize.key (level_prizes (db w)) →
  fk_LevelPrize_prize (db w) →
  ∃ w' new,
    give_prizes_for_level p level_id w = Ok (tt, w')
    ∧ player_prizes (db w') = player_prizes (db w) ++ new
    ∧ same_but_player_prizes (db w) (db w')
    ∧ Forall (λ r, PlayerPrize.player_id r = Player.id p) new
    ∧ PlayerPrize.prize_id <$> new ≡ₚ
        filter (λ x, ¬ holds (db w) (Player.id p) x)
               (LevelPrize.prize_id <$> associated (db w) level_id)
    ∧ ((∀ lp, lp ∈ associated (db w) level_id →
              ¬ holds (db w) (Player.id p) (LevelPrize.prize_id lp)) →
       length new = length (associated (db w) level_id))
    ∧ give_prizes_for_level p level_id w' = Ok (tt, w').
Proof.
  intros Hget Hc Hpk Hfk.
  destruct (for_each_grant p (select_prizes_of_level level_id (db w)) w)
    as (w' & new & Hrun & Hpp & Hsame & Hclk & Hall & Hnd & Hel).
  assert (Hperm : PlayerPrize.prize_id <$> new ≡ₚ
                  filter (λ x, ¬ holds (db w) (Player.id p) x)
                         (LevelPrize.prize_id <$> associated (db w) level_id)).
  { apply NoDup_Permutation; [done| |].
    - apply NoDup_filter. by apply associated_prize_ids_NoDup.
    - intros x. rewrite Hel, list_elem_of_filter, select_prizes_ids by done. tauto. }
  exists w', new.
  split. { by rewrite (give_prizes_completed _ _ _ _ _ Hget Hc). }
  split; [done|]. split; [done|]. split; [done|]. split; [done|].
  split.
  { intros Hnone.
    rewrite <- (length_fmap PlayerPrize.prize_id new), Hperm.
    rewrite filter_all, length_fmap; [done|].
    intros x Hx. apply list_elem_of_fmap in Hx as (lp & -> & Hlp). by apply Hnone. }
  destruct Hsame as (_ & _ & _ & _ & Hprizes & Hlevels & Hlps).
  assert (Hget' : get_PlayerLevel (Player.id p, level_id) (db w') = Some pl).
  { unfold get_PlayerLevel. rewrite Hlevels. exact Hget. }
  rewrite (give_prizes_completed _ _ _ _ _ Hget' Hc).
  apply for_each_grant_all_held. intros q Hq.
  assert (Hq' : q ∈ select_prizes_of_level level_id (db w)).
  { apply elem_of_select_prizes_of_level.
    apply elem_of_select_prizes_of_level in Hq. by rewrite Hprizes, Hlps in Hq. }
  apply (holds_app (db w) (db w') new); [done|].
  destruct (decide (holds (db w) (Player.id p) (Prize.id q))) as [Hh|Hh]; [by left|].
  right.
  assert (Hin : Prize.id q ∈ PlayerPrize.prize_id <$> new).
  { apply Hel. split; [|done]. by apply list_elem_of_fmap_2. }
  apply list_elem_of_fmap in Hin as (r & Hid & Hr).
  apply Exists_exists. exists r. split; [done|]. split; [|done].
  by apply (proj1 (Forall_forall _ _) Hall).
Qed.

(** ** The invariants of the ledger *)

Lemma give_prizes_frame self level_id w :
  ∃ w', give_prizes_for_level self level_id w = Ok (tt, w')
        ∧ same_but_player_prizes (db w) (db w').
Proof.
  destruct (get_PlayerLevel (Player.id self, level_id) (db w)) as [pl|] eqn:Hget.
  - destruct (PlayerLevel.completed pl) as [t|] eqn:Hc.
    + destruct (for_each_grant self (select_prizes_of_level level_id (db w)) w)
        as (w' & new & Hrun & _ & Hsame & _).
      exists w'. by rewrite (give_prizes_completed _ _ _ _ _ Hget Hc).
    + exists w. by rewrite (give_prizes_not_completed _ _ _ _ Hget Hc).
  - exists w. by rewrite give_prizes_no_row.
Qed.

Lemma add_to_amount_keys k amount s :
  PlayerBoost.key <$> player_boosts (add_to_amount k amount s) =
  PlayerBoost.key <$> player_boosts s.
Proof.
  simpl. rewrite <- list_fmap_compose. apply list_fmap_ext.
  intros i r _. simpl. by destruct (decide (PlayerBoost.key r = k)).
Qed.

Lemma add_boost_ledger_inv self boost_id amount w w' :
  0 ≤ amount →
  ledger_inv (db w) →
  add_boost self boost_id amount w = Ok (tt, w') →
  ledger_inv (db w').
Proof.
  intros Hamount (Hchk & Hscore & Hpk) Hrun.
  destruct (get_PlayerBoost (Player.id self, boost_id) (db w)) as [pb|] eqn:Hget.
  - rewrite (add_boost_existing _ _ _ _ _ Hget) in Hrun.
    injection Hrun as <-. simpl. split; [|split].
    + intros r Hr. simpl in Hr.
      apply list_elem_of_fmap in Hr as (r0 & -> & Hr0).
      pose proof (Hchk _ Hr0).
      destruct (decide (PlayerBoost.key r0 = (Player.id self, boost_id))); simpl; lia.
    + exact Hscore.
    + unfold pk_unique. by rewrite add_to_amount_keys.
  - rewrite (add_boost_new _ _ _ _ Hget) in Hrun.
    injection Hrun as <-. simpl. split; [|split].
    + intros r Hr. simpl in Hr.
      apply elem_of_app in Hr as [Hr|Hr]; [by apply Hchk|].
      apply list_elem_of_singleton in Hr as ->. done.
    + exact Hscore.
    + unfold pk_unique. simpl. rewrite fmap_app. apply NoDup_app.
      split; [done|]. split; [|apply NoDup_singleton].
      intros k Hk Hk'. simpl in Hk'. apply list_elem_of_singleton in Hk' as ->.
      apply list_elem_of_fmap in Hk as (r & Hkey & Hr).
      by apply (proj1 (get_PlayerBoost_None _ _) Hget r).
Qed.

Lemma perform_ledger_inv c w w' :
  admissible c →
  ledger_inv (db w) →
  perform c w = Ok (tt, w') →
  ledger_inv (db w').
Proof.
  destruct c as [player_id | self boost_id amount | self level_id];
    simpl; intros Hadm Hinv Hrun.
  - revert Hrun. run_session.
    destruct (get_Player player_id (db w)) as [self|].
    + intros [= <-]. exact Hinv.
    + intros [= <-]. exact Hinv.
  - by eapply add_boost_ledger_inv.
  - destruct (give_prizes_frame self level_id w) as (w2 & Hrun2 & Hsame).
    rewrite Hrun2 in Hrun. injection Hrun as <-.
    destruct Hsame as (_ & _ & Hpb & _ & _ & Hpl & _).
    destruct Hinv as (Hchk & Hscore & Hpk).
    unfold ledger_inv, check_playerboost_amount_nonnegative,
      check_playerlevel_score_nonnegative.
    rewrite Hpb, Hpl. done.
Qed.

(** Each call returns: none of the operations raises. *)
Lemma perform_returns c w : ∃ w', perform c w = Ok (tt, w').
Proof.
  destruct c as [player_id | self boost_id amount | self level_id]; simpl.
  - run_session. destruct (get_Player player_id (db w)) as [self|]; eauto.
  - destruct (get_PlayerBoost (Player.id self, boost_id) (db w)) as [pb|] eqn:Hget.
    + rewrite (add_boost_existing _ _ _ _ _ Hget). eauto.
    + rewrite (add_boost_new _ _ _ _ Hget). eauto.
  - destruct (give_prizes_frame self level_id w) as (w' & -> & _). eauto.
Qed.

Lemma pk_unique_at_most_one {A K : Type} `{EqDecision K}
    (key : A → K) (rows : list A) (k : K) :
  pk_unique key rows → (length (filter (λ r, key r = k) rows) ≤ 1)%nat.
Proof.
  unfold pk_unique. induction rows as [|a rows IH]; intros Hnd; [simpl; lia|].
  rewrite fmap_cons in Hnd. apply NoDup_cons in Hnd as [Hnotin Hnd].
  rewrite filter_cons. destruct (decide (key a = k)) as [<-|_]; [|by apply IH].
  assert (filter (λ r, key r = key a) rows = []) as ->; [|simpl; lia].
  apply head_None, head_filter_None. intros x Hx Hkey. apply Hnotin.
  rewrite <- Hkey. by apply list_elem_of_fmap_2.
Qed.

(** C8: in every world reachable from a store that satisfies them, by
    [login], [add_boost] with a non-negative amount and
    [give_prizes_for_level], every [player_boosts] amount and every
    [player_levels] score is non-negative and no (player, boost) pair has
    more than one [player_boosts] row. *)
Theorem reachable_ledger_inv (w0 w : World) :
  ledger_inv (db w0) →
  reachable w0 w →
  (∀ r, r ∈ player_boosts (db w) → 0 ≤ PlayerBoost.amount r)
  ∧ (∀ r, r ∈ player_levels (db w) → 0 ≤ PlayerLevel.score r)
  ∧ pk_unique PlayerBoost.key (player_boosts (db w))
  ∧ ∀ player_id boost_id,
      (length (filter (λ r, PlayerBoost.key r = (player_id, boost_id))
                      (player_boosts (db w))) ≤ 1)%nat.
Proof.
  intros Hinv Hreach.
  assert (Hw : ledger_inv (db w)).
  { induction Hreach as [|w c w' _ IH Hadm Hrun]; [done|].
    by eapply perform_ledger_inv. }
  destruct Hw as (Hchk & Hscore & Hpk).
  split; [done|]. split; [done|]. split; [done|].
  intros player_id boost_id. by apply pk_unique_at_most_one.
Qed.

(** ** The export *)

Lemma mapM_result_cons {A B : Type} (f : A → result B) (a : A) (l : list A) :
  mapM f (a :: l) =
  match f a with
  | Ok y => match mapM f l with
            | Ok k => Ok (y :: k)
            | Raise e => Raise e
            end
  | Raise e => Raise e
  end.
Proof. reflexivity. Qed.

Lemma mapM_result_Ok {A B : Type} (f : A → result B) (l : list A) (k : list B) :
  mapM f l = Ok k ↔ Forall2 (λ x y, f x = Ok y) l k.
Proof.
  revert k. induction l as [|a l IH]; intros k.
  - split.
    + intros [= <-]. constructor.
    + intros Hk. by inversion Hk.
  - rewrite mapM_result_cons. split.
    + destruct (f a) as [y|e] eqn:Hy; [|done].
      destruct (mapM f l) as [k'|e] eqn:Hk; [|done].
      intros [= <-]. constructor; [done|]. by apply IH.
    + intros Hk. inversion Hk as [|? y ? k' Hy Hk']; subst.
      rewrite Hy. apply IH in Hk'. by rewrite Hk'.
Qed.


Lemma Forall2_impl_elem_of {A B : Type} (P Q : A → B → Prop) (l : list A) (k : list B) :
  Forall2 P l k → (∀ x y, x ∈ l → P x y → Q x y) → Forall2 Q l k.
Proof.
  induction 1 as [|x y l k HP _ IH]; intros Himpl; constructor.
  - apply Himpl; [left | done].
  - apply IH. intros x' y' Hx'. apply Himpl. by right.
Qed.

#[global] Instance prize_id_le_total : Total prize_id_le.
Proof. intros a b. unfold prize_id_le. lia. Qed.

#[global] Instance prize_id_le_trans : Transitive prize_id_le.
Proof. intros a b c. unfold prize_id_le. lia. Qed.








Lemma outer_nonempty {B : Type} (matches : list B) : ∃ o, o ∈ outer matches.
Proof.
  destruct matches as [|x rest]; simpl.
  - exists None. left.
  - exists (Some x). left.
Qed.

Lemma elem_of_export_query_intro s pl :
  pl ∈ player_levels s →
  PlayerLevel.level_id pl ∈ (Level.id <$> levels s) →
  pl ∈ export_query s.
Proof.
  intros Hpl Hlevel. unfold export_query.
  apply list_elem_of_fmap in Hlevel as (lv & Hid & Hlv).
  apply list_elem_of_bind. exists pl. split; [|done].
  apply list_elem_of_bind. exists lv. split; [|by apply list_elem_of_filter].
  destruct (outer_nonempty (Level_prizes s lv)) as [olp Holp].
  apply list_elem_of_bind. exists olp. split; [|done].
  destruct olp as [lp|].
  - destruct (outer_nonempty
                (filter (λ p, Prize.id p = LevelPrize.prize_id lp) (prizes s)))
      as [op Hop].
    apply list_elem_of_bind. exists op. split; [left|done].
  - apply list_elem_of_bind. exists None. split; left.
Qed.

Lemma Forall2_elem_of_l {A B : Type} (P : A → B → Prop) (l : list A) (k : list B) x :
  Forall2 P l k → x ∈ l → ∃ y, y ∈ k ∧ P x y.
Proof.
  induction 1 as [|a b l k Hab _ IH]; intros Hx.
  - by apply elem_of_nil in Hx.
  - apply elem_of_cons in Hx as [->|Hx].
    + exists b. split; [left|done].
    + destruct (IH Hx) as (y & Hy & HP). exists y. split; [by right|done].
Qed.


(** What a written row holds. *)
Lemma export_row_Ok s pl row :
  export_row s pl = Ok row →
  ∃ level prize_title,
    PlayerLevel_level s pl = Some level
    ∧ row = [CUuid (PlayerLevel.player_id pl); CStr (Level.title level);
             CBool (bool_decide (is_Some (PlayerLevel.completed pl)));
             CStr prize_title]
    ∧ match Level_prizes s level with
      | [] => prize_title = ""%string
      | lp :: _ => ∃ prize, LevelPrize_prize s lp = Some prize
                            ∧ prize_title = Prize.title prize
      end.
Proof.
  unfold export_row. destruct (PlayerLevel_level s pl) as [level|]; [|done].
  unfold mbind, result_bind.
  destruct (Level_prizes s level) as [|lp rest] eqn:Hlps.
  - intros [= <-]. exists level, ""%string. by rewrite Hlps.
  - destruct (LevelPrize_prize s lp) as [prize|] eqn:Hprize; [|done].
    intros [= <-]. exists level, (Prize.title prize).
    rewrite Hlps. split; [done|]. split; [done|]. by exists prize.
Qed.



Lemma export_Ok_inv s rows :
  export_player_levels_to_csv s = Ok (csv_header :: rows) →
  Forall2 (λ pl row, export_row s pl = Ok row) (export_query s) rows.
Proof.
  unfold export_player_levels_to_csv.
  destruct (mapM (export_row s) (export_query s)) as [k|e] eqn:Hk; [|done].
  intros [= <-]. by apply mapM_result_Ok.
Qed.








(** ** The properties on the sample data *)

Definition scenario_world : World := mkWorld scenario_store sample_clock 0.
Definition test_world : World := mkWorld test_store sample_clock 0.

(** Closed constraints on the sample stores are decided by evaluation. *)
Ltac by_evaluation := apply (bool_decide_unpack _); vm_compute; exact I.

Lemma scenario_store_fk_LevelPrize_prize : fk_LevelPrize_prize scenario_store.
Proof.
  intros r Hr. revert r Hr. apply Forall_forall. by_evaluation.
Defined.



Lemma give_prizes_grants_once_and_is_idempotent_witness :
  ∃ w' new,
    give_prizes_for_level alice 20%N scenario_world = Ok (tt, w')
    ∧ player_prizes (db w') = new
    ∧ length new = 2%nat
    ∧ give_prizes_for_level alice 20%N w' = Ok (tt, w').
Proof.
  destruct (give_prizes_grants_once_and_is_idempotent alice 20%N
              {| PlayerLevel.player_id := 1%N; PlayerLevel.level_id := 20%N;
                 PlayerLevel.completed := Some day1_0900; PlayerLevel.score := 100 |}
              day1_0900 scenario_world)
    as (w' & new & Hrun & Hpp & _ & _ & _ & Hlen & Hagain).
  - reflexivity.
  - reflexivity.
  - unfold pk_unique. by_evaluation.
  - exact scenario_store_fk_LevelPrize_prize.
  - exists w', new. split; [exact Hrun|]. split; [exact Hpp|]. split; [|exact Hagain].
    apply Hlen. intros lp _ Hheld. simpl in Hheld. by apply Exists_nil in Hheld.
Defined.

Lemma give_prizes_incomplete_level_noop_witness :
  give_prizes_for_level alice 20%N test_world = Ok (tt, test_world)
  ∧ repeat_call 3 (give_prizes_for_level alice 20%N) test_world = Ok (tt, test_world).
Proof.
  apply (give_prizes_incomplete_level_noop alice 20%N
           {| PlayerLevel.player_id := 1%N; PlayerLevel.level_id := 20%N;
              PlayerLevel.completed := None; PlayerLevel.score := 0 |}
           test_world 3).
  - reflexivity.
  - reflexivity.
Defined.

(** Level 99 is in no table. *)
Lemma give_prizes_without_player_level_noop_witness :
  give_prizes_for_level alice 99%N test_world = Ok (tt, test_world).
Proof.
  apply (give_prizes_without_player_level_noop alice 99%N test_world).
  apply Forall_forall. by_evaluation.
Defined.

Lemma reachable_ledger_inv_witness :
  ∃ w, perform (AddBoost alice 10%N 3) scenario_world = Ok (tt, w)
       ∧ (∀ r, r ∈ player_boosts (db w) → 0 ≤ PlayerBoost.amount r)
       ∧ (∀ r, r ∈ player_levels (db w) → 0 ≤ PlayerLevel.score r)
       ∧ pk_unique PlayerBoost.key (player_boosts (db w))
       ∧ ∀ player_id boost_id,
           (length (filter (λ r, PlayerBoost.key r = (player_id, boost_id))
                           (player_boosts (db w))) ≤ 1)%nat.
Proof.
  eexists. split; [reflexivity|].
  apply (reachable_ledger_inv scenario_world).
  - split; [|split].
    + intros r Hr. revert r Hr. apply Forall_forall. by_evaluation.
    + intros r Hr. revert r Hr. apply Forall_forall. by_evaluation.
    + unfold pk_unique. by_evaluation.
  - apply (reachable_step scenario_world scenario_world (AddBoost alice 10%N 3)).
    + apply reachable_refl.
    + simpl. lia.
    + reflexivity.
Defined.





(** The scenario of a level with two prizes: the join has one row per
    associated prize, and the export writes the row of the single
    [player_levels] row once for each. *)
Example export_level_with_two_prizes :
  export_player_levels_to_csv scenario_store =
    Ok [csv_header;
        [CUuid 1%N; CStr "Level 1"; CBool true; CStr "X"];
        [CUuid 1%N; CStr "Level 1"; CBool true; CStr "X"]]
  ∧ length (player_levels scenario_store) = 1%nat.
Proof. split; reflexivity. Qed.

(** The scenario of the specification, run from the start. *)
Example scenario_run :
  ∃ w', (add_boost alice 10%N 1 ;; give_prizes_for_level alice 20%N ;;
         give_prizes_for_level alice 20%N) scenario_world = Ok (tt, w')
        ∧ (PlayerBoost.amount <$> player_boosts (db w')) = [1]
        ∧ (PlayerPrize.key <$> player_prizes (db w')) = [(1%N, 30%N); (1%N, 31%N)].
Proof. eexists. split; [reflexivity|]. split; reflexivity. Qed.

(** * Further properties of main.py *)

(** ** Sequences of logins *)

Lemma repeat_login_S n self w :
  repeat_login (S n) self w =
  match login self w with
  | Ok (self', w') => repeat_login n self' w'
  | Raise e => Raise e
  end.
Proof. reflexivity. Qed.

(** X1: Any number of logins keeps the player's identifier and the store, never
    lowers the points and adds at most 10 per call; [first_login] is written
    once, by the first call that finds it unset, and [last_login] ends as the
    last reading of the clock. *)
Theorem repeat_login_frame (n : nat) (p : Player.t) (w : World) :
  ∃ p' w',
    repeat_login n p w = Ok (p', w')
    ∧ Player.id p' = Player.id p
    ∧ db w' = db w ∧ clock w' = clock w ∧ ticks w' = (ticks w + n)%nat
    ∧ Player.points p ≤ Player.points p' ≤ Player.points p + 10 * Z.of_nat n
    ∧ Player.first_login p' =
        match Player.first_login p, n with
        | Some f, _ => Some f
        | None, O => None
        | None, S _ => Some (clock w (ticks w))
        end
    ∧ Player.last_login p' =
        match n with
        | O => Player.last_login p
        | S m => Some (clock w (ticks w + m)%nat)
        end.
Proof.
  revert p w. induction n as [|n IH]; intros p w.
  - exists p, w. simpl. rewrite Nat.add_0_r.
    repeat split; try done; try lia. by destruct (Player.first_login p).
  - rewrite repeat_login_S, login_run.
    match goal with |- context [repeat_login n ?p1 ?w1] =>
      destruct (IH p1 w1) as (p' & w' & Hrun & Hid & Hdb & Hclk & Hticks & Hpts & Hfirst & Hlast)
    end.
    exists p', w'. simpl in *.
    split; [done|]. split; [done|]. split; [done|]. split; [done|].
    split; [lia|]. split.
    { destruct (Player.last_login p) as [l|];
        [destruct (Datetime.date_ltb _ _)|]; lia. }
    split.
    { rewrite Hfirst. by destruct (Player.first_login p). }
    rewrite Hlast. destruct n as [|m]; [by rewrite Nat.add_0_r|].
    do 2 f_equal. lia.
Qed.

Lemma repeat_login_same_date n : ∀ p w l d,
  Player.last_login p = Some l →
  Datetime.date_of l = d →
  (∀ i, (i < n)%nat → Datetime.date_of (clock w (ticks w + i)%nat) = d) →
  ∃ p' w', repeat_login n p w = Ok (p', w')
           ∧ Player.points p' = Player.points p.
Proof.
  induction n as [|n IH]; intros p w l d Hl Hd Hday.
  - by exists p, w.
  - rewrite repeat_login_S, login_run.
    match goal with |- context [repeat_login n ?p1 ?w1] =>
      destruct (IH p1 w1 (clock w (ticks w)) d) as (p' & w' & Hrun & Hpts)
    end.
    + reflexivity.
    + rewrite <- (Nat.add_0_r (ticks w)). apply Hday. lia.
    + intros i Hi. simpl. rewrite <- Nat.add_succ_r. apply Hday. lia.
    + exists p', w'. split; [done|]. rewrite Hpts. simpl. rewrite Hl.
      specialize (Hday O ltac:(lia)). rewrite Nat.add_0_r in Hday.
      by rewrite Hday, <- Hd, date_ltb_irrefl.
Qed.

(** X2: However many times [login] is called during one UTC day, the day is
    credited once: [S n] calls whose clock readings share their date, the
    first of them on a new day for the player, add 10 points in all. *)
Theorem repeat_login_same_day (n : nat) (p : Player.t) (w : World) :
  (∀ i, (i ≤ n)%nat →
        Datetime.date_of (clock w (ticks w + i)%nat) =
        Datetime.date_of (clock w (ticks w))) →
  (Player.last_login p = None
   ∨ ∃ l, Player.last_login p = Some l
          ∧ Datetime.date_ltb (Datetime.date_of l)
                              (Datetime.date_of (clock w (ticks w))) = true) →
  ∃ p' w',
    repeat_login (S n) p w = Ok (p', w')
    ∧ Player.points p' = Player.points p + 10.
Proof.
  intros Hday Hnew. rewrite repeat_login_S, login_run.
  match goal with |- context [repeat_login n ?p1 ?w1] =>
    destruct (repeat_login_same_date n p1 w1 (clock w (ticks w))
                (Datetime.date_of (clock w (ticks w))))
      as (p' & w' & Hrun & Hpts)
  end.
  - reflexivity.
  - reflexivity.
  - intros i Hi. simpl. rewrite <- Nat.add_succ_r. apply Hday. lia.
  - exists p', w'. split; [done|]. rewrite Hpts. simpl.
    destruct Hnew as [-> | (l & -> & ->)]; reflexivity.
Qed.

Lemma repeat_login_same_day_witness :
  ∃ p' w',
    repeat_login 2 alice (mkWorld empty_store sample_clock 0) = Ok (p', w')
    ∧ Player.points p' = Player.points alice + 10.
Proof.
  apply (repeat_login_same_day 1 alice (mkWorld empty_store sample_clock 0)).
  - intros i Hi. destruct i as [|[|i]]; [reflexivity|reflexivity|lia].
  - left. reflexivity.
Defined.

(** X3: One login on each of [n] days, the dates of the clock readings strictly
    increasing and the first a new day for the player, adds 10 points per
    login. *)
Theorem repeat_login_one_per_day (n : nat) (p : Player.t) (w : World) :
  ((0 < n)%nat →
   Player.last_login p = None
   ∨ ∃ l, Player.last_login p = Some l
          ∧ Datetime.date_ltb (Datetime.date_of l)
                              (Datetime.date_of (clock w (ticks w))) = true) →
  (∀ i, (S i < n)%nat →
        Datetime.date_ltb (Datetime.date_of (clock w (ticks w + i)%nat))
                          (Datetime.date_of (clock w (ticks w + S i)%nat)) = true) →
  ∃ p' w',
    repeat_login n p w = Ok (p', w')
    ∧ Player.points p' = Player.points p + 10 * Z.of_nat n.
Proof.
  revert p w. induction n as [|n IH]; intros p w Hnew Hrise.
  - exists p, w. split; [done|]. simpl. lia.
  - rewrite repeat_login_S, login_run.
    match goal with |- context [repeat_login n ?p1 ?w1] =>
      destruct (IH p1 w1) as (p' & w' & Hrun & Hpts)
    end.
    + intros Hn. right. exists (clock w (ticks w)). split; [done|]. simpl.
      specialize (Hrise O ltac:(lia)).
      by rewrite Nat.add_0_r, Nat.add_1_r in Hrise.
    + intros i Hi. simpl. rewrite <- !Nat.add_succ_r. apply Hrise. lia.
    + exists p', w'. split; [done|]. rewrite Hpts. simpl Player.points.
      destruct (Hnew ltac:(lia)) as [-> | (l & -> & ->)]; lia.
Qed.

Lemma repeat_login_one_per_day_witness :
  ∃ p' w',
    repeat_login 2 alice (mkWorld empty_store sample_clock 1) = Ok (p', w')
    ∧ Player.points p' = Player.points alice + 10 * Z.of_nat 2.
Proof.
  apply (repeat_login_one_per_day 2 alice (mkWorld empty_store sample_clock 1)).
  - intros _. left. reflexivity.
  - intros i Hi. destruct i as [|i]; [reflexivity|lia].
Defined.

(** ** add_boost: frame, sums and amounts the method does not check *)

Lemma add_amount_0 r : PlayerBoost.add_amount r 0 = r.
Proof. destruct r. unfold PlayerBoost.add_amount. simpl. f_equal. lia. Qed.

Lemma add_amount_add_amount r a b :
  PlayerBoost.add_amount (PlayerBoost.add_amount r a) b =
  PlayerBoost.add_amount r (a + b).
Proof. unfold PlayerBoost.add_amount. simpl. f_equal. lia. Qed.

Lemma filter_other_add_to_amount k amount s :
  filter (λ r, PlayerBoost.key r ≠ k) (player_boosts (add_to_amount k amount s)) =
  filter (λ r, PlayerBoost.key r ≠ k) (player_boosts s).
Proof.
  simpl. induction (player_boosts s) as [|r l IH]; [done|].
  rewrite fmap_cons, !filter_cons.
  destruct (decide (PlayerBoost.key r = k)) as [Hk|Hk].
  - rewrite !decide_False by (simpl; tauto). exact IH.
  - rewrite !decide_True by done. by f_equal.
Qed.

(** X4: [add_boost] returns for every input, writes to [player_boosts] only,
    leaves every row of another (player, boost) pair as it was and adds at
    most one row.  When the amount is non-negative and the amounts in the
    store are, the rows keep the CHECK on the amount, and a [session.get]
    for the pair finds a row afterwards. *)
Theorem add_boost_frame (self : Player.t) (boost_id : UUID) (amount : Z) (w : World) :
  ∃ w',
    add_boost self boost_id amount w = Ok (tt, w')
    ∧ same_but_player_boosts (db w) (db w')
    ∧ filter (λ r, PlayerBoost.key r ≠ (Player.id self, boost_id))
             (player_boosts (db w')) =
      filter (λ r, PlayerBoost.key r ≠ (Player.id self, boost_id))
             (player_boosts (db w))
    ∧ (length (player_boosts (db w)) ≤ length (player_boosts (db w'))
       ≤ S (length (player_boosts (db w))))%nat
    ∧ (0 ≤ amount →
       check_playerboost_amount_nonnegative (db w) →
       check_playerboost_amount_nonnegative (db w')
       ∧ is_Some (get_PlayerBoost (Player.id self, boost_id) (db w'))).
Proof.
  destruct (get_PlayerBoost (Player.id self, boost_id) (db w)) as [pb|] eqn:Hget.
  - eexists. split; [by eapply add_boost_existing|]. cbn [db].
    split; [by unfold same_but_player_boosts|].
    split; [apply filter_other_add_to_amount|].
    split; [simpl; rewrite length_fmap; lia|].
    intros Hamount Hchk. split.
    + intros r Hr. simpl in Hr.
      apply list_elem_of_fmap in Hr as (r0 & -> & Hr0).
      pose proof (Hchk _ Hr0).
      destruct (decide (PlayerBoost.key r0 = (Player.id self, boost_id))); simpl; lia.
    + unfold get_PlayerBoost in *. rewrite filter_add_to_amount.
      destruct (filter _ (player_boosts (db w))); [done|]. by eexists.
  - eexists. split; [by apply add_boost_new|]. cbn [db].
    split; [by unfold same_but_player_boosts|].
    split.
    { simpl. rewrite filter_app, filter_cons_False, filter_nil, app_nil_r; [done|].
      simpl. tauto. }
    split; [simpl; rewrite length_app; simpl; lia|].
    intros Hamount Hchk. split.
    + intros r Hr. simpl in Hr.
      apply elem_of_app in Hr as [Hr|Hr]; [by apply Hchk|].
      apply list_elem_of_singleton in Hr as ->. done.
    + unfold get_PlayerBoost in *. simpl.
      rewrite filter_app, filter_cons_True by done.
      apply head_None in Hget. rewrite Hget. by eexists.
Qed.

Lemma add_boost_frame_witness :
  ∃ w',
    add_boost alice 10%N 3 (mkWorld store_with_boost sample_clock 0) = Ok (tt, w')
    ∧ check_playerboost_amount_nonnegative (db w')
    ∧ is_Some (get_PlayerBoost (1%N, 10%N) (db w')).
Proof.
  destruct (add_boost_frame alice 10%N 3 (mkWorld store_with_boost sample_clock 0))
    as (w' & Hrun & _ & _ & _ & Hback).
  exists w'. split; [exact Hrun|]. apply Hback.
  - lia.
  - intros r Hr. simpl in Hr. by apply elem_of_nil in Hr.
Defined.

Lemma for_each_add_boost_existing self boost_id (amounts : list Z) : ∀ w r0 rest,
  filter (λ r, PlayerBoost.key r = (Player.id self, boost_id))
         (player_boosts (db w)) = r0 :: rest →
  ∃ w',
    for_each amounts (add_boost self boost_id) w = Ok (tt, w')
    ∧ filter (λ r, PlayerBoost.key r = (Player.id self, boost_id))
             (player_boosts (db w')) =
      (λ r, PlayerBoost.add_amount r (foldr Z.add 0 amounts)) <$> (r0 :: rest)
    ∧ length (player_boosts (db w')) = length (player_boosts (db w)).
Proof.
  induction amounts as [|a amounts IH]; intros w r0 rest Hrows.
  - exists w. split; [done|]. split; [|done]. rewrite Hrows. simpl.
    rewrite add_amount_0. f_equal.
    rewrite <- (list_fmap_id rest) at 1. apply list_fmap_ext.
    intros i r _. by rewrite add_amount_0.
  - simpl for_each. unfold mbind at 1, session_bind.
    erewrite add_boost_existing
      by (unfold get_PlayerBoost; by rewrite Hrows).
    match goal with |- context [for_each amounts _ ?w1] =>
      destruct (IH w1 (PlayerBoost.add_amount r0 a)
                   ((λ r, PlayerBoost.add_amount r a) <$> rest))
        as (w' & Hrun & Hrows' & Hlen)
    end.
    { cbn [db]. by rewrite filter_add_to_amount, Hrows. }
    exists w'. split; [done|]. split.
    + rewrite Hrows'. simpl. rewrite add_amount_add_amount. f_equal.
      rewrite <- list_fmap_compose. apply list_fmap_ext.
      intros i r _. simpl. by rewrite add_amount_add_amount.
    + rewrite Hlen. simpl. by rewrite length_fmap.
Qed.

(** X5: A sequence of [add_boost] calls for one (player, boost) pair with
    non-negative amounts leaves one row holding their sum: a new row when
    the sequence started without one, the old row raised by the sum
    otherwise. *)
Theorem add_boost_sequence_sums
    (p : Player.t) (b : UUID) (amounts : list Z) (w : World) :
  Forall (λ a, 0 ≤ a) amounts →
  let rows_of s :=
    filter (λ r, PlayerBoost.key r = (Player.id p, b)) (player_boosts s) in
  ∃ w',
    for_each amounts (add_boost p b) w = Ok (tt, w')
    ∧ (rows_of (db w) = [] → amounts ≠ [] →
       rows_of (db w') =
         [{| PlayerBoost.player_id := Player.id p;
             PlayerBoost.boost_id := b;
             PlayerBoost.amount := foldr Z.add 0 amounts;
             PlayerBoost.created_at := clock w (ticks w) |}]
       ∧ length (player_boosts (db w')) = S (length (player_boosts (db w))))
    ∧ (∀ r0, rows_of (db w) = [r0] →
       rows_of (db w') = [PlayerBoost.add_amount r0 (foldr Z.add 0 amounts)]
       ∧ length (player_boosts (db w')) = length (player_boosts (db w))).
Proof.
  intros _ rows_of.
  destruct (rows_of (db w)) as [|r0 rest] eqn:Hrows; subst rows_of; simpl in Hrows.
  - destruct amounts as [|a amounts].
    { exists w. split; [done|]. split; [done|]. by rewrite Hrows. }
    simpl for_each. unfold mbind at 1, session_bind.
    rewrite add_boost_new by (unfold get_PlayerBoost; by rewrite Hrows).
    match goal with |- context [for_each amounts _ ?w1] =>
      destruct (for_each_add_boost_existing p b amounts w1
                  {| PlayerBoost.player_id := Player.id p;
                     PlayerBoost.boost_id := b;
                     PlayerBoost.amount := a;
                     PlayerBoost.created_at := clock w (ticks w) |} [])
        as (w' & Hrun & Hrows' & Hlen)
    end.
    { simpl. rewrite filter_app, Hrows, filter_cons_True by done. done. }
    exists w'. split; [done|]. split; [|done]. intros _ _. split.
    + rewrite Hrows'. reflexivity.
    + rewrite Hlen. simpl. rewrite length_app. simpl. lia.
  - destruct (for_each_add_boost_existing p b amounts w r0 rest Hrows)
      as (w' & Hrun & Hrows' & Hlen).
    exists w'. split; [done|]. split; [done|].
    intros r1 [= <- ->]. by rewrite Hrows'.
Qed.

Lemma add_boost_sequence_sums_witness :
  ∃ w',
    for_each [2; 1; 3] (add_boost alice 10%N)
      (mkWorld store_with_boost sample_clock 0) = Ok (tt, w')
    ∧ filter (λ r, PlayerBoost.key r = (1%N, 10%N)) (player_boosts (db w')) =
        [{| PlayerBoost.player_id := 1%N; PlayerBoost.boost_id := 10%N;
            PlayerBoost.amount := foldr Z.add 0 [2; 1; 3];
            PlayerBoost.created_at := day1_0900 |}].
Proof.
  destruct (add_boost_sequence_sums alice 10%N [2; 1; 3]
              (mkWorld store_with_boost sample_clock 0))
    as (w' & Hrun & Hnew & _).
  - repeat constructor; lia.
  - exists w'. split; [exact Hrun|]. apply Hnew; [reflexivity|discriminate].
Defined.

Lemma add_to_amount_0 k s : add_to_amount k 0 s = s.
Proof.
  destruct s. unfold add_to_amount. simpl. f_equal.
  apply fmap_unchanged. intros r _.
  destruct (decide (PlayerBoost.key r = k)); [apply add_amount_0|done].
Qed.

(** X6: [add_boost] with amount 0 on a pair that has a row changes nothing. *)
Theorem add_boost_zero_existing (self : Player.t) (boost_id : UUID) (w : World) :
  is_Some (get_PlayerBoost (Player.id self, boost_id) (db w)) →
  add_boost self boost_id 0 w = Ok (tt, w).
Proof.
  intros [pb Hget]. rewrite (add_boost_existing _ _ _ _ _ Hget).
  rewrite add_to_amount_0. by destruct w.
Qed.

(** X7: [add_boost] does not check the sign of the amount.  A negative amount
    is written like any other: without a row the new row carries it, with a
    row of a smaller amount the row goes below zero, and in both cases the
    call returns and the rows of the session break the CHECK on
    [player_boosts.amount]. *)
Theorem add_boost_negative_amount_unchecked
    (self : Player.t) (boost_id : UUID) (amount : Z) (w : World) :
  amount < 0 →
  let rows_of s :=
    filter (λ r, PlayerBoost.key r = (Player.id self, boost_id)) (player_boosts s) in
  ∃ w',
    add_boost self boost_id amount w = Ok (tt, w')
    ∧ (rows_of (db w) = [] →
       ¬ check_playerboost_amount_nonnegative (db w'))
    ∧ (∀ r0 rest, rows_of (db w) = r0 :: rest →
       PlayerBoost.amount r0 + amount < 0 →
       ¬ check_playerboost_amount_nonnegative (db w')).
Proof.
  intros Hneg rows_of.
  destruct (rows_of (db w)) as [|r0 rest] eqn:Hrows; subst rows_of; simpl in Hrows.
  - eexists. split.
    { apply add_boost_new. unfold get_PlayerBoost. by rewrite Hrows. }
    split; [|done]. intros _ Hchk.
    match type of Hchk with check_playerboost_amount_nonnegative (db ?w1) =>
      specialize (Hchk
        {| PlayerBoost.player_id := Player.id self;
           PlayerBoost.boost_id := boost_id;
           PlayerBoost.amount := amount;
           PlayerBoost.created_at := clock w (ticks w) |})
    end.
    simpl in Hchk. rewrite elem_of_app, list_elem_of_singleton in Hchk.
    specialize (Hchk (or_intror eq_refl)). lia.
  - eexists. split.
    { eapply add_boost_existing. unfold get_PlayerBoost. by rewrite Hrows. }
    split; [done|]. intros r1 rest1 [= <- <-] Hlow Hchk.
    specialize (Hchk (PlayerBoost.add_amount r0 amount)).
    cbn [db] in Hchk. simpl in Hchk.
    assert (Hin : PlayerBoost.add_amount r0 amount ∈
                  filter (λ r, PlayerBoost.key r = (Player.id self, boost_id))
                         (player_boosts
                            (add_to_amount (Player.id self, boost_id) amount (db w)))).
    { rewrite filter_add_to_amount, Hrows. left. }
    apply list_elem_of_filter in Hin as [_ Hin].
    specialize (Hchk Hin). lia.
Qed.

Lemma add_boost_zero_existing_witness :
  add_boost alice 10%N 0 (mkWorld boosted_store sample_clock 0) =
  Ok (tt, mkWorld boosted_store sample_clock 0).
Proof.
  apply (add_boost_zero_existing alice 10%N (mkWorld boosted_store sample_clock 0)).
  eexists. reflexivity.
Defined.

Lemma add_boost_negative_amount_unchecked_witness :
  ∃ w',
    add_boost alice 10%N (-5) (mkWorld boosted_store sample_clock 0) = Ok (tt, w')
    ∧ ¬ check_playerboost_amount_nonnegative (db w').
Proof.
  destruct (add_boost_negative_amount_unchecked alice 10%N (-5)
              (mkWorld boosted_store sample_clock 0))
    as (w' & Hrun & _ & Hlow).
  - lia.
  - exists w'. split; [exact Hrun|].
    eapply Hlow; [reflexivity|simpl; lia].
Defined.

(** ** give_prizes_for_level: what a call adds *)

(** The effect of a call in any world: rows appended to [player_prizes], all
    for the caller, one per prize, each for a prize the query of the level
    returned and the caller did not hold. *)
Lemma give_prizes_effect self level_id w :
  ∃ w' new,
    give_prizes_for_level self level_id w = Ok (tt, w')
    ∧ player_prizes (db w') = player_prizes (db w) ++ new
    ∧ same_but_player_prizes (db w) (db w')
    ∧ Forall (λ r, PlayerPrize.player_id r = Player.id self) new
    ∧ NoDup (PlayerPrize.prize_id <$> new)
    ∧ ∀ x, x ∈ PlayerPrize.prize_id <$> new →
           x ∈ Prize.id <$> select_prizes_of_level level_id (db w)
           ∧ ¬ holds (db w) (Player.id self) x.
Proof.
  assert (Hnoop : give_prizes_for_level self level_id w = Ok (tt, w) →
                  ∃ w' new,
                    give_prizes_for_level self level_id w = Ok (tt, w')
                    ∧ player_prizes (db w') = player_prizes (db w) ++ new
                    ∧ same_but_player_prizes (db w) (db w')
                    ∧ Forall (λ r, PlayerPrize.player_id r = Player.id self) new
                    ∧ NoDup (PlayerPrize.prize_id <$> new)
                    ∧ ∀ x, x ∈ PlayerPrize.prize_id <$> new →
                           x ∈ Prize.id <$> select_prizes_of_level level_id (db w)
                           ∧ ¬ holds (db w) (Player.id self) x).
  { intros Hrun. exists w, []. rewrite app_nil_r.
    split; [done|]. split; [done|]. split; [by unfold same_but_player_prizes|].
    split; [constructor|]. split; [constructor|].
    intros x Hx. by apply elem_of_nil in Hx. }
  destruct (get_PlayerLevel (Player.id self, level_id) (db w)) as [pl|] eqn:Hget.
  - destruct (PlayerLevel.completed pl) as [t|] eqn:Hc.
    + destruct (for_each_grant self (select_prizes_of_level level_id (db w)) w)
        as (w' & new & Hrun & Hpp & Hsame & _ & Hall & Hnd & Hel).
      exists w', new. rewrite (give_prizes_completed _ _ _ _ _ Hget Hc).
      split; [done|]. split; [done|]. split; [done|]. split; [done|].
      split; [done|]. intros x Hx. by apply Hel.
    + apply Hnoop. by eapply give_prizes_not_completed.
  - apply Hnoop. by apply give_prizes_no_row.
Qed.

Lemma holds_iff_key s player_id x :
  holds s player_id x ↔ (player_id, x) ∈ PlayerPrize.key <$> player_prizes s.
Proof.
  unfold holds. rewrite Exists_exists, list_elem_of_fmap. split.
  - intros (r & Hr & <- & <-). by exists r.
  - intros (r & [= -> ->] & Hr). by exists r.
Qed.

Lemma grant_keys self (new : list PlayerPrize.t) :
  Forall (λ r, PlayerPrize.player_id r = Player.id self) new →
  PlayerPrize.key <$> new = (λ x, (Player.id self, x)) <$> (PlayerPrize.prize_id <$> new).
Proof.
  intros Hall. rewrite <- list_fmap_compose.
  apply Forall_fmap_ext_1. eapply Forall_impl; [exact Hall|].
  intros r Hr. unfold PlayerPrize.key. simpl. by rewrite Hr.
Qed.

Lemma grant_keeps_pk self (old new : list PlayerPrize.t) :
  pk_unique PlayerPrize.key old →
  Forall (λ r, PlayerPrize.player_id r = Player.id self) new →
  NoDup (PlayerPrize.prize_id <$> new) →
  (∀ x, x ∈ PlayerPrize.prize_id <$> new →
        (Player.id self, x) ∉ PlayerPrize.key <$> old) →
  pk_unique PlayerPrize.key (old ++ new).
Proof.
  intros Hpk Hall Hnd Hfresh.
  unfold pk_unique in *. rewrite fmap_app. apply NoDup_app.
  split; [done|]. split.
  - intros k Hold Hnew. rewrite (grant_keys self new Hall) in Hnew.
    apply list_elem_of_fmap in Hnew as (x & -> & Hx). by apply (Hfresh x).
  - rewrite (grant_keys self new Hall). apply NoDup_fmap_2; [|done].
    intros x y [= ->]. done.
Qed.

(** X9: The existence check keeps the primary key of [player_prizes]: whatever
    the level, and even when its prizes are attached to other levels the
    player was rewarded for, a call returns and leaves at most one row per
    (player, prize) pair. *)
Theorem give_prizes_keeps_player_prizes_unique
    (self : Player.t) (level_id : UUID) (w : World) :
  pk_unique PlayerPrize.key (player_prizes (db w)) →
  ∃ w',
    give_prizes_for_level self level_id w = Ok (tt, w')
    ∧ pk_unique PlayerPrize.key (player_prizes (db w')).
Proof.
  intros Hpk.
  destruct (give_prizes_effect self level_id w)
    as (w' & new & Hrun & Hpp & _ & Hall & Hnd & Hel).
  exists w'. split; [done|]. rewrite Hpp.
  apply (grant_keeps_pk self); try done.
  intros x Hx Hin. apply Hel in Hx as [_ Hnh]. apply Hnh. by apply holds_iff_key.
Qed.

Lemma give_prizes_keeps_player_prizes_unique_witness :
  ∃ w',
    give_prizes_for_level alice 20%N scenario_world = Ok (tt, w')
    ∧ pk_unique PlayerPrize.key (player_prizes (db w')).
Proof.
  apply (give_prizes_keeps_player_prizes_unique alice 20%N scenario_world).
  unfold pk_unique. by_evaluation.
Defined.

(** X10: A call never removes or rewrites a [player_prizes] row and leaves the
    rows of every other player alone; each row it appends is for the caller
    and for a prize that exists in [prizes], is attached to the level by a
    [level_prizes] row, and was not held by the caller before. *)
Theorem give_prizes_appends_only_level_prizes
    (self : Player.t) (level_id : UUID) (w : World) :
  ∃ w' new,
    give_prizes_for_level self level_id w = Ok (tt, w')
    ∧ player_prizes (db w') = player_prizes (db w) ++ new
    ∧ same_but_player_prizes (db w) (db w')
    ∧ filter (λ r, PlayerPrize.player_id r ≠ Player.id self) (player_prizes (db w')) =
      filter (λ r, PlayerPrize.player_id r ≠ Player.id self) (player_prizes (db w))
    ∧ Forall (λ r, PlayerPrize.player_id r = Player.id self
                   ∧ PlayerPrize.prize_id r ∈ (Prize.id <$> prizes (db w))
                   ∧ PlayerPrize.prize_id r ∈
                       (LevelPrize.prize_id <$> associated (db w) level_id)
                   ∧ ¬ holds (db w) (Player.id self) (PlayerPrize.prize_id r)) new.
Proof.
  destruct (give_prizes_effect self level_id w)
    as (w' & new & Hrun & Hpp & Hsame & Hall & Hnd & Hel).
  exists w', new. split; [done|]. split; [done|]. split; [done|]. split.
  - rewrite Hpp, filter_app.
    assert (filter (λ r, PlayerPrize.player_id r ≠ Player.id self) new = []) as ->;
      [|by rewrite app_nil_r].
    apply head_None, head_filter_None. intros r Hr Hne. apply Hne.
    by apply (proj1 (Forall_forall _ _) Hall).
  - apply Forall_forall. intros r Hr.
    split; [by apply (proj1 (Forall_forall _ _) Hall)|].
    destruct (Hel (PlayerPrize.prize_id r)) as [Hsel Hnh];
      [by apply list_elem_of_fmap_2|].
    apply list_elem_of_fmap in Hsel as (q & Hid & Hq).
    apply elem_of_select_prizes_of_level in Hq as (Hq & lp & Hlp & Hlpid & Hlv).
    split; [rewrite Hid; by apply list_elem_of_fmap_2|].
    split; [|done].
    apply list_elem_of_fmap. exists lp. split; [congruence|].
    by apply list_elem_of_filter.
Qed.

(** X11: After a call on a completed level whose [level_prizes] rows reference
    existing prizes, the player holds every prize attached to the level. *)
Theorem give_prizes_then_holds_every_prize
    (p : Player.t) (level_id : UUID) (pl : PlayerLevel.t) (t : datetime) (w : World) :
  get_PlayerLevel (Player.id p, level_id) (db w) = Some pl →
  PlayerLevel.completed pl = Some t →
  fk_LevelPrize_prize (db w) →
  ∃ w',
    give_prizes_for_level p level_id w = Ok (tt, w')
    ∧ ∀ lp, lp ∈ associated (db w) level_id →
            holds (db w') (Player.id p) (LevelPrize.prize_id lp).
Proof.
  intros Hget Hc Hfk.
  destruct (for_each_grant p (select_prizes_of_level level_id (db w)) w)
    as (w' & new & Hrun & Hpp & Hsame & _ & Hall & _ & Hel).
  exists w'. split; [by rewrite (give_prizes_completed _ _ _ _ _ Hget Hc)|].
  intros lp Hlp. apply (holds_app (db w) (db w') new); [done|].
  destruct (decide (holds (db w) (Player.id p) (LevelPrize.prize_id lp)))
    as [Hh|Hh]; [by left|right].
  assert (Hin : LevelPrize.prize_id lp ∈ PlayerPrize.prize_id <$> new).
  { apply Hel. split; [|done]. apply select_prizes_ids; [done|].
    by apply list_elem_of_fmap_2. }
  apply list_elem_of_fmap in Hin as (r & Hid & Hr).
  apply Exists_exists. exists r. split; [done|]. split; [|done].
  by apply (proj1 (Forall_forall _ _) Hall).
Qed.

Lemma give_prizes_then_holds_every_prize_witness :
  ∃ w',
    give_prizes_for_level alice 20%N scenario_world = Ok (tt, w')
    ∧ holds (db w') 1%N 30%N ∧ holds (db w') 1%N 31%N.
Proof.
  destruct (give_prizes_then_holds_every_prize alice 20%N
              {| PlayerLevel.player_id := 1%N; PlayerLevel.level_id := 20%N;
                 PlayerLevel.completed := Some day1_0900; PlayerLevel.score := 100 |}
              day1_0900 scenario_world)
    as (w' & Hrun & Hall).
  - reflexivity.
  - reflexivity.
  - exact scenario_store_fk_LevelPrize_prize.
  - exists w'. split; [exact Hrun|]. split.
    + apply (Hall {| LevelPrize.level_id := 20%N; LevelPrize.prize_id := 30%N |}).
      simpl. left.
    + apply (Hall {| LevelPrize.level_id := 20%N; LevelPrize.prize_id := 31%N |}).
      simpl. right. left.
Defined.

(** ** The schema is kept by the three methods *)

Lemma put_Player_ids p s :
  Player.id <$> players (put_Player p s) = Player.id <$> players s.
Proof.
  simpl. rewrite <- list_fmap_compose. apply list_fmap_ext.
  intros i q _. simpl. destruct (decide (Player.id q = Player.id p)); congruence.
Qed.

Lemma well_referenced_ext s s' c :
  Player.id <$> players s' = Player.id <$> players s →
  boosts s' = boosts s →
  well_referenced s c → well_referenced s' c.
Proof.
  intros Hp Hb. destruct c; simpl; rewrite ?Hp, ?Hb; done.
Qed.

(** Rebuilds [schema_valid] for a store whose tables are given by
    equations in the context. *)
Ltac schema_fields :=
  unfold fk_PlayerBoost_player, fk_PlayerBoost_boost, fk_PlayerLevel_player,
    fk_PlayerLevel_level, fk_LevelPrize_level, fk_LevelPrize_prize,
    fk_PlayerPrize_player, fk_PlayerPrize_prize,
    check_playerboost_amount_nonnegative, check_playerlevel_score_nonnegative,
    pk_unique in *.

Lemma login_call_schema_valid player_id w :
  schema_valid (db w) →
  ∃ w', perform (Login player_id) w = Ok (tt, w')
        ∧ schema_valid (db w')
        ∧ Player.id <$> players (db w') = Player.id <$> players (db w)
        ∧ boosts (db w') = boosts (db w).
Proof.
  intros Hsv. simpl. run_session.
  destruct (get_Player player_id (db w)) as [self|]; [|by exists w].
  eexists. split; [reflexivity|]. cbn [db].
  split; [|split; [apply put_Player_ids|done]].
  destruct Hsv. constructor; schema_fields;
    rewrite ?put_Player_ids; simpl; done.
Qed.

Lemma add_boost_same_but_player_boosts self boost_id amount w :
  ∃ w', add_boost self boost_id amount w = Ok (tt, w')
        ∧ same_but_player_boosts (db w) (db w').
Proof.
  destruct (get_PlayerBoost (Player.id self, boost_id) (db w)) as [pb|] eqn:Hget.
  - eexists. split; [by eapply add_boost_existing|]. by unfold same_but_player_boosts.
  - eexists. split; [by apply add_boost_new|]. by unfold same_but_player_boosts.
Qed.

Lemma add_boost_call_schema_valid self boost_id amount w :
  schema_valid (db w) →
  well_referenced (db w) (AddBoost self boost_id amount) →
  ∃ w', add_boost self boost_id amount w = Ok (tt, w')
        ∧ schema_valid (db w')
        ∧ Player.id <$> players (db w') = Player.id <$> players (db w)
        ∧ boosts (db w') = boosts (db w).
Proof.
  intros Hsv (Hamount & Hplayer & Hboost).
  destruct (add_boost_same_but_player_boosts self boost_id amount w)
    as (w' & Hrun & Hsame).
  exists w'. split; [done|].
  assert (Hinv : ledger_inv (db w')).
  { eapply add_boost_ledger_inv; [exact Hamount| |exact Hrun].
    destruct Hsv. by split. }
  destruct Hinv as (Hchk & _ & Hpk).
  assert (Hrefs : ∀ r, r ∈ player_boosts (db w') →
            PlayerBoost.player_id r ∈ (Player.id <$> players (db w))
            ∧ PlayerBoost.boost_id r ∈ (Boost.id <$> boosts (db w))).
  { destruct Hsv.
    destruct (get_PlayerBoost (Player.id self, boost_id) (db w)) as [pb|] eqn:Hget.
    - rewrite (add_boost_existing _ _ _ _ _ Hget) in Hrun. injection Hrun as <-.
      intros r Hr. simpl in Hr. apply list_elem_of_fmap in Hr as (r0 & -> & Hr0).
      destruct (decide (PlayerBoost.key r0 = (Player.id self, boost_id))); simpl;
        split; auto.
    - rewrite (add_boost_new _ _ _ _ Hget) in Hrun. injection Hrun as <-.
      intros r Hr. simpl in Hr. apply elem_of_app in Hr as [Hr|Hr]; [split; auto|].
      apply list_elem_of_singleton in Hr as ->. simpl. done. }
  destruct Hsame as (Hp & Hb & Hl & Hpr & Hpl & Hlp & Hpp).
  split; [|by rewrite Hp, Hb].
  destruct Hsv. constructor; schema_fields;
    rewrite ?Hp, ?Hb, ?Hl, ?Hpr, ?Hpl, ?Hlp, ?Hpp; try done.
  - intros r Hr. by apply Hrefs.
  - intros r Hr. by apply Hrefs.
Qed.

Lemma give_prizes_call_schema_valid self level_id w :
  schema_valid (db w) →
  well_referenced (db w) (GivePrizes self level_id) →
  ∃ w', give_prizes_for_level self level_id w = Ok (tt, w')
        ∧ schema_valid (db w')
        ∧ Player.id <$> players (db w') = Player.id <$> players (db w)
        ∧ boosts (db w') = boosts (db w).
Proof.
  intros Hsv Hplayer. simpl in Hplayer.
  destruct (give_prizes_effect self level_id w)
    as (w' & new & Hrun & Hpp & Hsame & Hall & Hnd & Hel).
  exists w'. split; [done|].
  destruct Hsame as (Hp & Hb & Hpb & Hl & Hpr & Hpl & Hlp).
  split; [|by rewrite Hp, Hb].
  destruct Hsv. constructor; schema_fields;
    rewrite ?Hp, ?Hb, ?Hpb, ?Hl, ?Hpr, ?Hpl, ?Hlp, ?Hpp; try done.
  - apply (grant_keeps_pk self); try done.
    intros x Hx Hin. apply Hel in Hx as [_ Hnh]. apply Hnh. by apply holds_iff_key.
  - intros r Hr. apply elem_of_app in Hr as [Hr|Hr]; [auto|].
    by rewrite (proj1 (Forall_forall _ _) Hall r Hr).
  - intros r Hr. apply elem_of_app in Hr as [Hr|Hr]; [auto|].
    destruct (Hel (PlayerPrize.prize_id r)) as [Hsel _];
      [by apply list_elem_of_fmap_2|].
    apply list_elem_of_fmap in Hsel as (q & -> & Hq).
    apply elem_of_select_prizes_of_level in Hq as [Hq _].
    by apply list_elem_of_fmap_2.
Qed.

(** X12: Starting from a store that satisfies every constraint of the schema, any
    sequence of [login], [add_boost] and [give_prizes_for_level] calls,
    made for existing players and catalog boosts with non-negative amounts,
    returns and leaves a store that satisfies them all: no primary key or
    unique column is duplicated, no foreign key dangles and no CHECK is
    broken. *)
Theorem calls_keep_schema_valid (cs : list call) (w : World) :
  schema_valid (db w) →
  Forall (well_referenced (db w)) cs →
  ∃ w', for_each cs perform w = Ok (tt, w') ∧ schema_valid (db w').
Proof.
  revert w. induction cs as [|c cs IH]; intros w Hsv Hcs.
  - by exists w.
  - apply Forall_cons in Hcs as [Hc Hcs].
    assert (Hstep : ∃ w1, perform c w = Ok (tt, w1)
                          ∧ schema_valid (db w1)
                          ∧ Player.id <$> players (db w1) = Player.id <$> players (db w)
                          ∧ boosts (db w1) = boosts (db w)).
    { destruct c as [player_id | self boost_id amount | self level_id].
      - by apply login_call_schema_valid.
      - by apply add_boost_call_schema_valid.
      - by apply give_prizes_call_schema_valid. }
    destruct Hstep as (w1 & Hrun & Hsv1 & Hp & Hb).
    destruct (IH w1 Hsv1) as (w' & Hrun' & Hsv').
    { eapply Forall_impl; [exact Hcs|]. intros c'. by apply well_referenced_ext. }
    exists w'. split; [|done].
    simpl for_each. unfold mbind at 1, session_bind. by rewrite Hrun.
Qed.

Lemma scenario_store_schema_valid : schema_valid scenario_store.
Proof.
  constructor; schema_fields;
    first [ by_evaluation
          | intros r Hr; revert r Hr; apply Forall_forall; by_evaluation ].
Defined.

Lemma calls_keep_schema_valid_witness :
  ∃ w',
    for_each [Login 1%N; AddBoost alice 10%N 2; GivePrizes alice 20%N;
              GivePrizes alice 20%N] perform scenario_world = Ok (tt, w')
    ∧ schema_valid (db w').
Proof.
  apply (calls_keep_schema_valid
           [Login 1%N; AddBoost alice 10%N 2; GivePrizes alice 20%N;
            GivePrizes alice 20%N] scenario_world).
  - exact scenario_store_schema_valid.
  - repeat constructor; simpl; first [lia | by_evaluation].
Defined.

(** ** The export: coverage, missing references and the number of rows *)


(** X13: Nothing is lost: when the export returns, every [player_levels] row
    whose level exists has its row in the file. *)
Theorem export_covers_player_levels
    (s : Store) (rows : list (list cell)) (pl : PlayerLevel.t) :
  export_player_levels_to_csv s = Ok (csv_header :: rows) →
  pl ∈ player_levels s →
  PlayerLevel.level_id pl ∈ (Level.id <$> levels s) →
  ∃ level prize_title,
    PlayerLevel_level s pl = Some level
    ∧ [CUuid (PlayerLevel.player_id pl); CStr (Level.title level);
       CBool (bool_decide (is_Some (PlayerLevel.completed pl)));
       CStr prize_title] ∈ rows.
Proof.
  intros Hexp Hpl Hlevel. apply export_Ok_inv in Hexp.
  destruct (Forall2_elem_of_l _ _ _ pl Hexp) as (row & Hrow & Hok);
    [by apply elem_of_export_query_intro|].
  apply export_row_Ok in Hok as (level & prize_title & Hlv & -> & _).
  by exists level, prize_title.
Qed.

Lemma export_covers_player_levels_witness :
  ∃ level prize_title,
    PlayerLevel_level test_store
      {| PlayerLevel.player_id := 1%N; PlayerLevel.level_id := 20%N;
         PlayerLevel.completed := None; PlayerLevel.score := 0 |} = Some level
    ∧ [CUuid 1%N; CStr (Level.title level); CBool false; CStr prize_title]
        ∈ [[CUuid 1%N; CStr "Test Level"; CBool false; CStr "Test Prize"]].
Proof.
  apply (export_covers_player_levels test_store
           [[CUuid 1%N; CStr "Test Level"; CBool false; CStr "Test Prize"]]
           {| PlayerLevel.player_id := 1%N; PlayerLevel.level_id := 20%N;
              PlayerLevel.completed := None; PlayerLevel.score := 0 |}).
  - reflexivity.
  - left.
  - left.
Defined.

Lemma list_bind_filter {A B : Type} (P : A → Prop) `{!∀ x, Decision (P x)}
    (f : A → list B) (l : list A) :
  (∀ x, x ∈ l → ¬ P x → f x = []) → l ≫= f = filter P l ≫= f.
Proof.
  induction l as [|a l IH]; intros Hf; [done|].
  rewrite filter_cons, bind_cons.
  rewrite IH by (intros x Hx; apply Hf; by right).
  destruct (decide (P a)) as [Ha|Ha]; [by rewrite bind_cons|].
  by rewrite (Hf a) by (done || left).
Qed.

Lemma export_query_missing_level s pl :
  PlayerLevel.level_id pl ∉ (Level.id <$> levels s) →
  filter (λ lv, Level.id lv = PlayerLevel.level_id pl) (levels s) = [].
Proof.
  intros Hmiss. apply head_None, head_filter_None.
  intros lv Hlv Hid. apply Hmiss. rewrite <- Hid. by apply list_elem_of_fmap_2.
Qed.

(** X14: The join drops the [player_levels] rows whose level is missing: the
    export is the same as without them, and it is the header alone when no
    row references an existing level (an empty [player_levels] table
    included). *)
Theorem export_ignores_rows_without_level (s : Store) :
  export_player_levels_to_csv s =
  export_player_levels_to_csv
    (with_player_levels
       (filter (λ pl, PlayerLevel.level_id pl ∈ (Level.id <$> levels s))
               (player_levels s)) s)
  ∧ ((∀ pl, pl ∈ player_levels s →
            PlayerLevel.level_id pl ∉ (Level.id <$> levels s)) →
     export_player_levels_to_csv s = Ok [csv_header]).
Proof.
  assert (Hq : export_query s =
               export_query
                 (with_player_levels
                    (filter (λ pl, PlayerLevel.level_id pl ∈ (Level.id <$> levels s))
                            (player_levels s)) s)).
  { unfold export_query at 1.
    rewrite (list_bind_filter
               (λ pl, PlayerLevel.level_id pl ∈ (Level.id <$> levels s))); [done|].
    intros pl _ Hmiss. by rewrite export_query_missing_level. }
  split.
  - unfold export_player_levels_to_csv. by rewrite <- Hq.
  - intros Hnone. unfold export_player_levels_to_csv. rewrite Hq.
    assert (filter (λ pl, PlayerLevel.level_id pl ∈ (Level.id <$> levels s))
                   (player_levels s) = []) as ->; [|done].
    apply head_None, head_filter_None. intros pl Hpl Hin. by apply (Hnone pl).
Qed.




Lemma export_ignores_rows_without_level_witness :
  export_player_levels_to_csv empty_store = Ok [csv_header].
Proof.
  apply (export_ignores_rows_without_level empty_store).
  intros pl Hpl. simpl in Hpl. by apply elem_of_nil in Hpl.
Defined.








(** ** The boost catalogue *)

#[global] Instance BoostType_description_inj : Inj (=) (=) BoostType_description.
Proof. intros [] [] Heq; first [reflexivity | discriminate Heq]. Qed.

Lemma boost_catalogue_descriptions ids types :
  Boost.description <$> boost_catalogue ids types =
  BoostType_description <$> (Boost.type <$> boost_catalogue ids types).
Proof.
  unfold boost_catalogue. revert types.
  induction ids as [|i ids IH]; intros [|t types]; simpl; try done.
  by rewrite <- IH.
Qed.

(** X17: A catalogue made with [Boost.create] from distinct types and distinct
    identifiers satisfies the unique constraint on [boosts.type] and the
    primary key; the description of each boost is the one attached to its
    type, no two boosts share a description, and there are at most three
    boosts. *)
Theorem boost_catalogue_unique (ids : list UUID) (types : list BoostType) :
  length ids = length types →
  NoDup ids →
  NoDup types →
  pk_unique Boost.id (boost_catalogue ids types)
  ∧ pk_unique Boost.type (boost_catalogue ids types)
  ∧ Boost.type <$> boost_catalogue ids types = types
  ∧ Boost.description <$> boost_catalogue ids types = BoostType_description <$> types
  ∧ NoDup (Boost.description <$> boost_catalogue ids types)
  ∧ (length (boost_catalogue ids types) ≤ 3)%nat.
Proof.
  intros Hlen Hids Htypes.
  assert (Hi : Boost.id <$> boost_catalogue ids types = ids).
  { unfold boost_catalogue. apply fmap_zip_with_l; [done|lia]. }
  assert (Ht : Boost.type <$> boost_catalogue ids types = types).
  { unfold boost_catalogue. apply fmap_zip_with_r; [done|lia]. }
  assert (Hd : Boost.description <$> boost_catalogue ids types =
               BoostType_description <$> types).
  { by rewrite boost_catalogue_descriptions, Ht. }
  unfold pk_unique. rewrite Hi, Ht, Hd.
  split; [done|]. split; [done|]. split; [done|]. split; [done|].
  split; [by apply NoDup_fmap_2; [apply _|]|].
  rewrite <- (length_fmap Boost.type), Ht.
  change 3%nat with (length [DOUBLE_POINTS; SPEED; SHIELD]).
  apply submseteq_length, NoDup_submseteq; [done|].
  intros [] _; [left | right; left | right; right; left].
Qed.

Lemma boost_catalogue_unique_witness :
  pk_unique Boost.id (boost_catalogue [10%N; 11%N; 12%N] [DOUBLE_POINTS; SPEED; SHIELD])
  ∧ pk_unique Boost.type
      (boost_catalogue [10%N; 11%N; 12%N] [DOUBLE_POINTS; SPEED; SHIELD])
  ∧ Boost.type <$> boost_catalogue [10%N; 11%N; 12%N] [DOUBLE_POINTS; SPEED; SHIELD]
    = [DOUBLE_POINTS; SPEED; SHIELD]
  ∧ Boost.description
      <$> boost_catalogue [10%N; 11%N; 12%N] [DOUBLE_POINTS; SPEED; SHIELD]
    = BoostType_description <$> [DOUBLE_POINTS; SPEED; SHIELD]
  ∧ NoDup (Boost.description
             <$> boost_catalogue [10%N; 11%N; 12%N] [DOUBLE_POINTS; SPEED; SHIELD])
  ∧ (length (boost_catalogue [10%N; 11%N; 12%N] [DOUBLE_POINTS; SPEED; SHIELD]) ≤ 3)%nat.
Proof.
  apply (boost_catalogue_unique [10%N; 11%N; 12%N] [DOUBLE_POINTS; SPEED; SHIELD]).
  - reflexivity.
  - by_evaluation.
  - by_evaluation.
Defined.

(** ** add_boost for several boosts, as call_example.py grants them *)

(** X8: Granting a player a list of distinct boosts none of which the player
    has yet, one [add_boost] call each with a non-negative amount, appends
    exactly one row per grant, in the order of the calls and with the amount
    of the call, and rewrites no other row. *)
Theorem add_boost_distinct_boosts
    (p : Player.t) (grants : list (UUID * Z)) (w : World) :
  NoDup (grants.*1) →
  Forall (λ g, 0 ≤ g.2) grants →
  (∀ r, r ∈ player_boosts (db w) →
        PlayerBoost.player_id r = Player.id p →
        PlayerBoost.boost_id r ∉ grants.*1) →
  ∃ w' new,
    for_each grants (λ g, add_boost p g.1 g.2) w = Ok (tt, w')
    ∧ player_boosts (db w') = player_boosts (db w) ++ new
    ∧ (λ r, (PlayerBoost.key r, PlayerBoost.amount r)) <$> new =
      (λ g, ((Player.id p, g.1), g.2)) <$> grants
    ∧ ticks w' = (ticks w + length grants)%nat.
Proof.
  intros Hnd _. revert w Hnd.
  induction grants as [|[b a] gs IH]; intros w Hnd Hfresh.
  - exists w, []. rewrite app_nil_r, Nat.add_0_r. done.
  - rewrite fmap_cons in Hnd. apply NoDup_cons in Hnd as [Hb Hnd]. simpl in Hb.
    simpl for_each. unfold mbind at 1, session_bind.
    rewrite add_boost_new.
    2:{ apply get_PlayerBoost_None. intros r Hr [= Hp Hk].
        apply (Hfresh r Hr Hp). rewrite Hk, fmap_cons. left. }
    match goal with |- context [for_each gs _ ?w1] =>
      destruct (IH w1 Hnd) as (w' & new & Hrun & Hpb & Hnew & Hticks)
    end.
    { intros r Hr Hp. simpl in Hr. apply elem_of_app in Hr as [Hr|Hr].
      - intros Hin. apply (Hfresh r Hr Hp). rewrite fmap_cons. by right.
      - apply list_elem_of_singleton in Hr as ->. done. }
    eexists w', (_ :: new). split; [exact Hrun|].
    split. { rewrite Hpb. simpl. by rewrite <- app_assoc. }
    split. { rewrite !fmap_cons, Hnew. reflexivity. }
    rewrite Hticks. simpl. lia.
Qed.

Lemma add_boost_distinct_boosts_witness :
  ∃ w' new,
    for_each [(10%N, 2); (11%N, 1); (12%N, 3)] (λ g, add_boost alice g.1 g.2)
      (mkWorld store_with_boost sample_clock 0) = Ok (tt, w')
    ∧ player_boosts (db w') = [] ++ new
    ∧ (λ r, (PlayerBoost.key r, PlayerBoost.amount r)) <$> new =
      [((1%N, 10%N), 2); ((1%N, 11%N), 1); ((1%N, 12%N), 3)]
    ∧ ticks w' = 3%nat.
Proof.
  apply (add_boost_distinct_boosts alice [(10%N, 2); (11%N, 1); (12%N, 3)]
           (mkWorld store_with_boost sample_clock 0)).
  - by_evaluation.
  - repeat constructor; simpl; lia.
  - intros r Hr. simpl in Hr. by apply elem_of_nil in Hr.
Defined.
